(** * Verification of [services/geminiService.ts]

    A shallow embedding of the audio codec helpers, the request assembler
    and the response/error normalizer of the Gemini service layer, with
    the properties the specification states about them.

    Conventions of the embedding:
    - the elements of a [Uint8Array] are a [list Z] with values in
      [0, 256), those of an [Int16Array] a [list Z] with values in
      [-32768, 32768); the wrap-around of a typed-array store is written
      out; where the code reaches for the [buffer] behind an array, the
      array is a window ([Uint8Array]) into the bytes of that buffer;
    - a JavaScript "binary string" (every code unit below 256) and every
      other text is a [string]; its characters are exactly the code units
      0..255;
    - a JavaScript number that the codec touches is a dyadic value
      [m * 2^e], or NaN, or an infinity (type [number]);
    - [console] output and calls to the host's key-selection API are
      recorded in a trace of [event]s;
    - a promise that has settled is a [promise] value. *)

From Stdlib Require Import ZArith List String Ascii Bool Lia QArith Qround.
From Stdlib Require Import DecimalString.
Import ListNotations.

Open Scope string_scope.
Open Scope list_scope.
Open Scope Z_scope.

(* ================================================================== *)
(** * Part I: definitions                                              *)
(* ================================================================== *)

(** ** Typed arrays and counted loops *)

(** [arr[i] = v] on a typed array: a store outside the array is ignored. *)
Fixpoint ta_set {A : Type} (i : nat) (v : A) (arr : list A) : list A :=
  match arr, i with
  | [], _ => []
  | _ :: r, O => v :: r
  | x :: r, S j => x :: ta_set j v r
  end.

(** [for (let i = 0; i < n; i++) body], threading the mutated state. *)
Definition for_loop {S : Type} (n : nat) (body : nat -> S -> S) (init : S) : S :=
  fold_left (fun s i => body i s) (seq 0 n) init.

Definition is_uint8 (b : Z) : Prop := 0 <= b < 256.
Definition is_int16 (v : Z) : Prop := -32768 <= v < 32768.

(** Conversion of an integral value on a store into a [Uint8Array]. *)
Definition ToUint8 (v : Z) : Z := v mod 256.

(** Conversion of an integral value on a store into an [Int16Array]. *)
Definition wrap_int16 (v : Z) : Z :=
  let u := v mod 65536 in if 32768 <=? u then u - 65536 else u.

(** ** Characters and binary strings *)

Definition char_code (c : ascii) : Z := Z.of_N (N_of_ascii c).

(** [String.fromCharCode(b)] for a code unit below 256. *)
Definition fromCharCode (b : Z) : ascii := ascii_of_N (Z.to_N b).

(** [s.charCodeAt(i)]; [None] stands for the NaN of an index out of range. *)
Definition charCodeAt (s : string) (i : nat) : option Z :=
  option_map char_code (String.get i s).

(** ** The host's [btoa] and [atob]

    [btoa] is the base64 encoding of RFC 4648 with padding; [atob] is the
    forgiving-base64 decoding of the WHATWG Infra standard: ASCII
    whitespace is removed, one or two trailing [=] are removed when the
    length is a multiple of four, a length of 1 modulo 4 or a character
    outside the alphabet is an error, and the remaining characters are
    read six bits at a time, dropping the bits of an incomplete octet. *)
Module Base64.

Definition alphabet : list ascii :=
  list_ascii_of_string
    "ABCDEFGHIJKLMNOPQRSTUVWXYZabcdefghijklmnopqrstuvwxyz0123456789+/".

Definition pad_char : ascii := "="%char.

Definition sextet_char (n : Z) : ascii := nth (Z.to_nat n) alphabet "A"%char.

Fixpoint index_of (c : ascii) (l : list ascii) : option Z :=
  match l with
  | [] => None
  | x :: r => if Ascii.eqb c x then Some 0 else option_map Z.succ (index_of c r)
  end.

Definition char_sextet (c : ascii) : option Z := index_of c alphabet.

(** Three octets give four characters; a final group of one or two
    octets is completed with zero bits and padded with [=]. *)
Fixpoint encode_octets (l : list Z) : list ascii :=
  match l with
  | [] => []
  | [a] =>
      [sextet_char (a / 4); sextet_char (a mod 4 * 16); pad_char; pad_char]
  | [a; b] =>
      [sextet_char (a / 4); sextet_char (a mod 4 * 16 + b / 16);
       sextet_char (b mod 16 * 4); pad_char]
  | a :: b :: c :: r =>
      sextet_char (a / 4) :: sextet_char (a mod 4 * 16 + b / 16)
        :: sextet_char (b mod 16 * 4 + c / 64) :: sextet_char (c mod 64)
        :: encode_octets r
  end.

Definition is_ascii_whitespace (c : ascii) : bool :=
  let n := char_code c in
  (n =? 9) || (n =? 10) || (n =? 12) || (n =? 13) || (n =? 32).

(** Remove one or two trailing [=]. *)
Definition strip_trailing_pad (l : list ascii) : list ascii :=
  match rev l with
  | c1 :: r1 =>
      if Ascii.eqb c1 pad_char then
        match r1 with
        | c2 :: r2 => if Ascii.eqb c2 pad_char then rev r2 else rev r1
        | [] => rev r1
        end
      else l
  | [] => l
  end.

Definition strip_padding (l : list ascii) : list ascii :=
  if Z.of_nat (List.length l) mod 4 =? 0 then strip_trailing_pad l else l.

Fixpoint sextets (l : list ascii) : option (list Z) :=
  match l with
  | [] => Some []
  | c :: r =>
      match char_sextet c, sextets r with
      | Some n, Some v => Some (n :: v)
      | _, _ => None
      end
  end.

Fixpoint decode_sextets (v : list Z) : list Z :=
  match v with
  | a :: b :: c :: d :: r =>
      (a * 4 + b / 16) :: (b mod 16 * 16 + c / 4) :: (c mod 4 * 64 + d)
        :: decode_sextets r
  | [a; b; c] => [a * 4 + b / 16; b mod 16 * 16 + c / 4]
  | [a; b] => [a * 4 + b / 16]
  | _ => []
  end.

(** [btoa] never fails here: every character of a [string] is below 256. *)
Definition btoa (s : string) : string :=
  string_of_list_ascii (encode_octets (map char_code (list_ascii_of_string s))).

(** [None] is the [InvalidCharacterError] exception. *)
Definition atob (s : string) : option string :=
  let data :=
    filter (fun c => negb (is_ascii_whitespace c)) (list_ascii_of_string s) in
  let data := strip_padding data in
  if Z.of_nat (List.length data) mod 4 =? 1 then None
  else
    match sextets data with
    | None => None
    | Some v => Some (string_of_list_ascii (map fromCharCode (decode_sextets v)))
    end.

End Base64.

(** ** The codec: [decode] and [encode] *)

(** [decode(base64)]: the code units of [atob(base64)], stored one by one
    into a fresh [Uint8Array] of the same length. *)
Definition decode (base64 : string) : option (list Z) :=
  match Base64.atob base64 with
  | None => None
  | Some binaryString =>
      let len := String.length binaryString in
      Some (for_loop len
              (fun i bytes =>
                 match charCodeAt binaryString i with
                 | Some c => ta_set i (ToUint8 c) bytes
                 | None => ta_set i 0 bytes
                 end)
              (repeat 0 len))
  end.

(** [encode(bytes)]: the binary string is built by appending one
    character per byte, then handed to [btoa]. *)
Definition encode (bytes : list Z) : string :=
  let binary :=
    fold_left
      (fun binary b => (binary ++ String (fromCharCode b) EmptyString)%string)
      bytes EmptyString in
  Base64.btoa binary.

(** ** Numbers

    The numbers the codec computes with are samples of a [Float32Array]
    and their products and quotients by 32768.  A finite one is the
    dyadic value [m * 2^e]; multiplying or dividing a 32-bit float or a
    16-bit integer by the power of two 32768 is exact in double
    precision, so it only moves the exponent. *)
Inductive number : Type :=
| NaN
| Infinity (negative : bool)
| Finite (m e : Z).

(** [x * 2^k], exact. *)
Definition scale_pow2 (x : number) (k : Z) : number :=
  match x with
  | Finite m e => Finite m (e + k)
  | _ => x
  end.

(** [x * 32768] *)
Definition mul_32768 (x : number) : number := scale_pow2 x 15.

(** [x / 32768.0] *)
Definition div_32768 (x : number) : number := scale_pow2 x (-15).

(** The integer part of a finite number, rounding toward zero. *)
Definition truncate (m e : Z) : Z :=
  if 0 <=? e then m * 2 ^ e else Z.quot m (2 ^ (- e)).

(** The conversion [ToInt16] applied by a store into an [Int16Array]:
    NaN and the infinities give 0, a finite number is truncated toward
    zero and reduced modulo 2^16 into [-32768, 32768). *)
Definition ToInt16 (x : number) : Z :=
  match x with
  | Finite m e => wrap_int16 (truncate m e)
  | _ => 0
  end.

(** The rational value of a finite number. *)
Definition number_value (x : number) : option Q :=
  match x with
  | Finite m e =>
      Some (if 0 <=? e then inject_Z (m * 2 ^ e)
            else Qmake m (Z.to_pos (2 ^ (- e))))
  | _ => None
  end.

(** [Math.round]: the nearest integer, a half rounding up. *)
Definition js_round (q : Q) : Z := Qfloor (q + (1 # 2))%Q.

(** Decimal numeral of an integer-valued number (below 10^21 in
    magnitude, where [ToString] prints every digit). *)
Definition string_of_Z (z : Z) : string := NilZero.string_of_int (Z.to_int z).

(** ** Views of one buffer

    An [ArrayBuffer] is the list of its bytes.  A typed array made by
    [new Uint8Array(len)] or [new Int16Array(l)] owns a buffer of its own
    and spans it from offset 0; an array made by [subarray] or over an
    existing buffer is a window into a larger one.  The byte order is
    little-endian. *)

Definition int16_bytes (v : Z) : list Z :=
  let u := v mod 65536 in [u mod 256; u / 256].

(** [new Uint8Array(int16.buffer)] *)
Definition Uint8Array_of_int16_buffer (int16 : list Z) : list Z :=
  flat_map int16_bytes int16.

Fixpoint int16_view (bytes : list Z) : list Z :=
  match bytes with
  | lo :: hi :: r => wrap_int16 (lo + 256 * hi) :: int16_view r
  | _ => []
  end.

(** [new Int16Array(buffer)] over the whole of an [ArrayBuffer] holding
    [bytes]: a [RangeError] ([None]) when the byte length of the buffer
    is odd. *)
Definition Int16Array_of_buffer (bytes : list Z) : option (list Z) :=
  if Nat.even (List.length bytes) then Some (int16_view bytes) else None.

(** The little-endian 16-bit signed integer at position [k] of a byte
    sequence. *)
Definition int16At (bytes : list Z) (k : nat) : Z :=
  wrap_int16 (nth (2 * k) bytes 0 + 256 * nth (2 * k + 1) bytes 0).

(** A [Uint8Array] as a function receives one: [array_length] bytes at
    [byteOffset] of the buffer [array_buffer] ([data.buffer]), which may
    hold more bytes before and after them. *)
Record Uint8Array : Type := {
  array_buffer : list Z;
  byteOffset : nat;
  array_length : nat
}.

(** The bytes [data[0]], ..., [data[length - 1]] of the array. *)
Definition array_elements (data : Uint8Array) : list Z :=
  firstn (array_length data) (skipn (byteOffset data) (array_buffer data)).

(** The array owns its buffer: offset 0 and the buffer's length. *)
Definition spans_buffer (data : Uint8Array) : Prop :=
  byteOffset data = 0%nat /\ array_length data = List.length (array_buffer data).

(** The fresh array [new Uint8Array(len)] with the given elements, as
    [decode] returns it. *)
Definition Uint8Array_of_bytes (bytes : list Z) : Uint8Array :=
  {| array_buffer := bytes; byteOffset := 0; array_length := List.length bytes |}.

(** ** The codec: [createPcmBlob] *)

Record GeminiBlob : Type := {
  blob_data : string;
  blob_mimeType : string
}.

(** [data[i]] on a [Float32Array]; out of range it is [undefined], which
    arithmetic turns into NaN. *)
Definition float32_get (data : list number) (i : nat) : number :=
  match nth_error data i with
  | Some x => x
  | None => NaN
  end.

Definition createPcmBlob (data : list number) (sampleRate : Z) : GeminiBlob :=
  let l := List.length data in
  let int16 :=
    for_loop l
      (fun i int16 => ta_set i (ToInt16 (mul_32768 (float32_get data i))) int16)
      (repeat 0 l) in
  {| blob_data := encode (Uint8Array_of_int16_buffer int16);
     blob_mimeType := ("audio/pcm;rate=" ++ string_of_Z sampleRate)%string |}.

(** ** The codec: [decodeAudioData] *)

Record AudioBuffer : Type := {
  numberOfChannels : nat;
  buffer_length : nat;
  buffer_sampleRate : Z;
  channels : list (list number)
}.

(** The audio context is the host's: its [createBuffer] allocates a
    buffer or throws ([None]). *)
Record AudioContext : Type := {
  createBuffer : nat -> nat -> Z -> option AudioBuffer
}.

(** A context that allocates silent buffers and rejects, as the Web Audio
    API requires, a channel count or a length of zero. *)
Definition plain_context : AudioContext :=
  {| createBuffer := fun numChannels len sampleRate =>
       if ((0 <? numChannels) && (0 <? len))%nat then
         Some {| numberOfChannels := numChannels;
                 buffer_length := len;
                 buffer_sampleRate := sampleRate;
                 channels := repeat (repeat (Finite 0 0) len) numChannels |}
       else None |}.

(** [dataInt16[k] / 32768.0]; out of range the element is [undefined]
    and the quotient NaN. *)
Definition int16_sample (dataInt16 : list Z) (k : nat) : number :=
  match nth_error dataInt16 k with
  | Some v => div_32768 (Finite v 0)
  | None => NaN
  end.

(** [buffer.getChannelData(channel)] gives the channel's own array, so
    the stores of the inner loop land in the buffer. *)
Definition set_channel (buffer : AudioBuffer) (channel : nat)
  (channelData : list number) : AudioBuffer :=
  {| numberOfChannels := numberOfChannels buffer;
     buffer_length := buffer_length buffer;
     buffer_sampleRate := buffer_sampleRate buffer;
     channels := ta_set channel channelData (channels buffer) |}.

(** [dataInt16] is built on [data.buffer]: it views the whole backing
    buffer, whatever the offset and the length of [data].
    [frameCount] is the quotient [dataInt16.length / numChannels] of two
    numbers: [createBuffer] receives its integer part as the length, and
    the loop [i < frameCount] runs up to its ceiling.  [None] is an
    exception: of the [Int16Array] constructor, of [createBuffer], or of
    [getChannelData] on a channel the buffer does not have. *)
Definition decodeAudioData (data : Uint8Array) (ctx : AudioContext)
  (sampleRate : Z) (numChannels : nat) : option AudioBuffer :=
  match Int16Array_of_buffer (array_buffer data) with
  | None => None
  | Some dataInt16 =>
      let n := List.length dataInt16 in
      let frameCount_floor := (n / numChannels)%nat in
      let frameCount_ceil := ((n + numChannels - 1) / numChannels)%nat in
      match createBuffer ctx numChannels frameCount_floor sampleRate with
      | None => None
      | Some buffer =>
          for_loop numChannels
            (fun channel state =>
               match state with
               | None => None
               | Some buffer =>
                   match nth_error (channels buffer) channel with
                   | None => None
                   | Some channelData =>
                       let channelData :=
                         for_loop frameCount_ceil
                           (fun i channelData =>
                              ta_set i
                                (int16_sample dataInt16 (i * numChannels + channel))
                                channelData)
                           channelData in
                       Some (set_channel buffer channel channelData)
                   end
               end)
            (Some buffer)
      end
  end.

(** The sample of a buffer at frame [i] of channel [c]. *)
Definition sample_at (buffer : AudioBuffer) (c i : nat) : option number :=
  match nth_error (channels buffer) c with
  | Some channelData => nth_error channelData i
  | None => None
  end.

(** ** The host environment and observable effects *)

(** What an awaited promise settles to. *)
Inductive promise (A : Type) : Type :=
| Resolved (a : A)
| Rejected (reason : string).

Arguments Resolved {A} a.
Arguments Rejected {A} reason.

(** The effects a call leaves behind, in order. *)
Inductive event : Type :=
| ConsoleWarn (msg : string)
| ConsoleError (msg : string)
| CallHasSelectedApiKey
| CallOpenSelectKey.

(** [window.aistudio]: each method is absent, or present with the
    settlement of the promise a call returns. *)
Record AIStudio : Type := {
  hasSelectedApiKey : option (promise bool);
  openSelectKey : option (promise unit)
}.

Record Window : Type := { aistudio : option AIStudio }.

(** [window] is absent outside a browser; [API_KEY] is
    [process.env.API_KEY]. *)
Record Host : Type := {
  window : option Window;
  API_KEY : option string
}.

(** Optional chaining [o?.f]. *)
Definition chain {A B : Type} (o : option A) (f : A -> option B) : option B :=
  match o with
  | Some a => f a
  | None => None
  end.

(** A string value is truthy when it is present and not empty. *)
Definition truthy (o : option string) : option string :=
  match o with
  | Some s => if String.eqb s "" then None else Some s
  | None => None
  end.

Definition is_event_open (e : event) : bool :=
  match e with
  | CallOpenSelectKey => true
  | _ => false
  end.

(** Number of calls to the key-selection dialog in a trace. *)
Definition dialog_calls (t : list event) : nat :=
  List.length (filter is_event_open t).

(** [s.startsWith(needle)] *)
Fixpoint starts_with (s needle : string) {struct needle} : bool :=
  match needle with
  | EmptyString => true
  | String a needle' =>
      match s with
      | EmptyString => false
      | String b s' => Ascii.eqb a b && starts_with s' needle'
      end
  end.

(** [s.includes(needle)] *)
Fixpoint includes (s needle : string) {struct s} : bool :=
  if starts_with s needle then true
  else
    match s with
    | EmptyString => false
    | String _ r => includes r needle
    end.

(** ** [getGeminiClient] *)

Record GoogleGenAI : Type := { apiKey : string }.

Definition getGeminiClient (host : Host) : list event * (string + GoogleGenAI) :=
  match truthy (API_KEY host) with
  | None =>
      ([ConsoleError "API_KEY is not defined."],
       inl "Gemini API key is not configured.")
  | Some key => ([], inr {| apiKey := key |})
  end.

(** ** [checkAndSelectVeoApiKey] *)

Definition warn_no_aistudio : string :=
  "window.aistudio not available. Assuming API key is selected or not required for this environment.".

Definition warn_no_key : string :=
  "Veo API key not selected. Opening key selection dialog.".

(** Calling a method the host does not have throws a [TypeError], which
    rejects the promise of the [async] function. *)
Definition not_a_function : string :=
  "TypeError: window.aistudio.openSelectKey is not a function".

Definition checkAndSelectVeoApiKey (host : Host) : list event * promise bool :=
  match chain (chain (window host) aistudio) hasSelectedApiKey with
  | None => ([ConsoleWarn warn_no_aistudio], Resolved true)
  | Some has_key_call =>
      match has_key_call with
      | Rejected reason => ([CallHasSelectedApiKey], Rejected reason)
      | Resolved hasKey =>
          if negb hasKey then
            match chain (chain (window host) aistudio) openSelectKey with
            | None =>
                ([CallHasSelectedApiKey; ConsoleWarn warn_no_key],
                 Rejected not_a_function)
            | Some (Rejected reason) =>
                ([CallHasSelectedApiKey; ConsoleWarn warn_no_key; CallOpenSelectKey],
                 Rejected reason)
            | Some (Resolved _) =>
                ([CallHasSelectedApiKey; ConsoleWarn warn_no_key; CallOpenSelectKey],
                 Resolved true)
            end
          else ([CallHasSelectedApiKey], Resolved true)
      end
  end.

(** ** [handleApiError] *)

(** The error is an object whose [message], when present, is a string,
    and whose [response], when present, has a numeric [status]. *)
Record ErrorData : Type := { data_message : option string }.

Record ErrorResponse : Type := {
  status : option Z;
  statusText : option string;
  response_data : option ErrorData
}.

Record ApiError : Type := {
  error_message : option string;
  error_response : option ErrorResponse
}.

(** A value inside a template literal; an absent one prints as
    [undefined]. *)
Definition template_text (o : option string) : string :=
  match o with
  | Some s => s
  | None => "undefined"
  end.

Definition unexpected_error : string := "An unexpected error occurred.".

Definition not_found_text : string := "Requested entity was not found.".

Definition reselect_hint : string :=
  " This might indicate an issue with your selected API key. Please try selecting it again.".

(** The message before the key-selection hint: lines 104-112. *)
Definition base_message (error : ApiError) : string :=
  let errorMessage := unexpected_error in
  match truthy (error_message error) with
  | Some m => m
  | None =>
      match error_response error with
      | None => errorMessage
      | Some response =>
          match status response with
          | None => errorMessage
          | Some st =>
              if st =? 0 then errorMessage
              else
                let errorMessage :=
                  ("API Error: " ++ string_of_Z st ++ " "
                     ++ template_text (statusText response))%string in
                match truthy (chain (response_data response) data_message) with
                | Some detail => (errorMessage ++ " - " ++ detail)%string
                | None => errorMessage
                end
          end
      end
  end.

Definition handleApiError (host : Host) (error : ApiError) : list event * string :=
  let log := [ConsoleError "Gemini API error:"] in
  let errorMessage := base_message error in
  if includes errorMessage not_found_text then
    let errorMessage := (errorMessage ++ reselect_hint)%string in
    match chain (chain (window host) aistudio) openSelectKey with
    | Some (Resolved _) => (log ++ [CallOpenSelectKey], errorMessage)
    | Some (Rejected _) =>
        (log ++ [CallOpenSelectKey;
                 ConsoleError "Error opening key selection dialog:"],
         errorMessage)
    | None => (log, errorMessage)
    end
  else (log, errorMessage).

(** ** [extractGroundingChunks] *)

(** The objects of the response, with the properties the function reads. *)
Record WebSource : Type := {
  web_uri : option string;
  web_title : option string
}.

Record ReviewSnippet : Type := {
  reviewSnippet : option string;
  snippet_uri : option string
}.

Record PlaceAnswerSources : Type := {
  reviewSnippets : option (list ReviewSnippet)
}.

Record MapsSource : Type := {
  maps_uri : option string;
  maps_title : option string;
  placeAnswerSources : option PlaceAnswerSources
}.

Record SourceChunk : Type := {
  web : option WebSource;
  maps : option MapsSource
}.

Record GroundingMetadata : Type := {
  groundingChunks : option (list SourceChunk)
}.

Record Candidate : Type := { groundingMetadata : option GroundingMetadata }.

Record GenerateContentResponse : Type := {
  candidates : option (list Candidate)
}.

(** The [maps] object the function builds. *)
Record MapsData : Type := {
  uri : string;
  title : string;
  mapsData_placeAnswerSources : option (list ReviewSnippet)
}.

(** The application's [GroundingChunk]: [{web: ...}] or [{maps: ...}]. *)
Inductive GroundingChunk : Type :=
| WebChunk (w : WebSource)
| MapsChunk (m : MapsData).

(** One round of the loop over the chunks. *)
Definition extract_step (groundingChunks : list GroundingChunk)
  (chunk : SourceChunk) : list GroundingChunk :=
  match chain (web chunk) (fun w =>
          match truthy (web_uri w), truthy (web_title w) with
          | Some _, Some _ => Some w
          | _, _ => None
          end) with
  | Some w => groundingChunks ++ [WebChunk w]
  | None =>
      match chain (maps chunk) (fun m =>
              match truthy (maps_uri m), truthy (maps_title m) with
              | Some u, Some t => Some (m, u, t)
              | _, _ => None
              end) with
      | Some (m, u, t) =>
          let mapsData :=
            {| uri := u; title := t; mapsData_placeAnswerSources := None |} in
          let mapsData :=
            match chain (placeAnswerSources m) reviewSnippets with
            | Some snippets =>
                {| uri := uri mapsData; title := title mapsData;
                   mapsData_placeAnswerSources :=
                     Some (map (fun snippet =>
                                  {| reviewSnippet := reviewSnippet snippet;
                                     snippet_uri := snippet_uri snippet |})
                               snippets) |}
            | None => mapsData
            end in
          groundingChunks ++ [MapsChunk mapsData]
      | None => groundingChunks
      end
  end.

(** [response.candidates?.[0]?.groundingMetadata?.groundingChunks] *)
Definition first_candidate_chunks (response : GenerateContentResponse)
  : option (list SourceChunk) :=
  chain (chain (chain (candidates response) (fun cs => nth_error cs 0))
               groundingMetadata)
        groundingChunks.

Definition extractGroundingChunks (response : GenerateContentResponse)
  : list GroundingChunk :=
  match first_candidate_chunks response with
  | Some chunks => fold_left extract_step chunks []
  | None => []
  end.

(** ** [generateContent] *)

Record ImageInput : Type := {
  image_base64Data : string;
  image_mimeType : string
}.

Record AudioInput : Type := {
  audio_base64Data : string;
  audio_mimeType : string
}.

(** A request part: [{inlineData: {data, mimeType}}] or [{text}]. *)
Inductive Part : Type :=
| InlineData (data mimeType : string)
| Text (text : string).

(** The value of a tool's field, an object such as [{}]. *)
Inductive ToolSettings : Type := EmptySettings.

Record Tool : Type := {
  googleSearch : option ToolSettings;
  googleMaps : option ToolSettings
}.

Record GeolocationCoordinates : Type := {
  latitude : number;
  longitude : number
}.

Record GeolocationPosition : Type := {
  coords : GeolocationCoordinates;
  timestamp : Z
}.

(** The optional third argument; an absent field is [None], and so is a
    [geolocation] of [null]. *)
Record ContentOptions : Type := {
  systemInstruction : option string;
  thinkingBudget : option Z;
  tools : option (list Tool);
  images : option (list ImageInput);
  audio : option AudioInput;
  geolocation : option GeolocationPosition
}.

Record ThinkingConfig : Type := { thinkingConfig_thinkingBudget : Z }.

Record LatLng : Type := {
  latLng_latitude : number;
  latLng_longitude : number
}.

Record RetrievalConfig : Type := { latLng : LatLng }.

Record ToolConfig : Type := { retrievalConfig : RetrievalConfig }.

Record GenerateConfig : Type := {
  config_systemInstruction : option string;
  config_thinkingConfig : option ThinkingConfig;
  config_tools : option (list Tool);
  config_toolConfig : option ToolConfig
}.

Record GenerateContentParameters : Type := {
  model : string;
  contents : list Part;
  config : GenerateConfig
}.

Definition image_part (img : ImageInput) : Part :=
  InlineData (image_base64Data img) (image_mimeType img).

(** Lines 171-182: the parts, pushed in order. *)
Definition assemble_parts (prompt : string) (options : option ContentOptions)
  : list Part :=
  let parts := [] in
  let parts :=
    match chain options images with
    | Some imgs =>
        if (0 <? List.length imgs)%nat then parts ++ map image_part imgs
        else parts
    | None => parts
    end in
  let parts :=
    match chain options audio with
    | Some a => parts ++ [InlineData (audio_base64Data a) (audio_mimeType a)]
    | None => parts
    end in
  if String.eqb prompt "" then parts else parts ++ [Text prompt].

(** [tools.some(tool => tool.googleMaps)] *)
Definition requests_maps (ts : list Tool) : bool :=
  existsb (fun tool => match googleMaps tool with Some _ => true | None => false end) ts.

Definition warn_no_geolocation : string :=
  "Geolocation not provided for Google Maps grounding.".

(** Lines 184-203: the config, and the warning it may log. *)
Definition assemble_config (options : option ContentOptions)
  : list event * GenerateConfig :=
  let generateConfig :=
    {| config_systemInstruction := chain options systemInstruction;
       config_thinkingConfig :=
         match chain options thinkingBudget with
         | Some budget => Some {| thinkingConfig_thinkingBudget := budget |}
         | None => None
         end;
       config_tools := chain options tools;
       config_toolConfig := None |} in
  match chain options tools with
  | Some ts =>
      if requests_maps ts then
        match chain options geolocation with
        | Some position =>
            ([],
             {| config_systemInstruction := config_systemInstruction generateConfig;
                config_thinkingConfig := config_thinkingConfig generateConfig;
                config_tools := config_tools generateConfig;
                config_toolConfig :=
                  Some {| retrievalConfig :=
                            {| latLng :=
                                 {| latLng_latitude := latitude (coords position);
                                    latLng_longitude := longitude (coords position) |}
                            |} |} |})
        | None => ([ConsoleWarn warn_no_geolocation], generateConfig)
        end
      else ([], generateConfig)
  | None => ([], generateConfig)
  end.

(** Everything [generateContent] does before it awaits the SDK: the
    client is made first, and a missing key throws before any part is
    assembled.  The right-hand result is the argument of
    [ai.models.generateContent]. *)
Definition generateContent_request (host : Host) (model_name prompt : string)
  (options : option ContentOptions)
  : list event * (string + GenerateContentParameters) :=
  match getGeminiClient host with
  | (log, inl exn) => (log, inl exn)
  | (log, inr _) =>
      let parts := assemble_parts prompt options in
      let (log', generateConfig) := assemble_config options in
      (log ++ log',
       inr {| model := model_name; contents := parts; config := generateConfig |})
  end.

(** [generateContent], given what the SDK's call settles to. *)
Definition generateContent {Response : Type}
  (sdk_generateContent : GenerateContentParameters -> promise Response)
  (host : Host) (model_name prompt : string) (options : option ContentOptions)
  : list event * promise Response :=
  match generateContent_request host model_name prompt options with
  | (log, inl exn) => (log, Rejected exn)
  | (log, inr request) => (log, sdk_generateContent request)
  end.

(** ** Auxiliary definitions: specification-side functions and sample inputs *)

Definition sextet_ok (n : Z) : bool :=
  match Base64.char_sextet (Base64.sextet_char n) with
  | Some m => (m =? n)
  | None => false
  end
  && negb (Base64.is_ascii_whitespace (Base64.sextet_char n))
  && negb (Ascii.eqb (Base64.sextet_char n) Base64.pad_char).

(** The characters of the encoding that carry data, and its padding. *)
Fixpoint encoded_body (l : list Z) : list ascii :=
  match l with
  | [] => []
  | [a] => [Base64.sextet_char (a / 4); Base64.sextet_char (a mod 4 * 16)]
  | [a; b] =>
      [Base64.sextet_char (a / 4); Base64.sextet_char (a mod 4 * 16 + b / 16);
       Base64.sextet_char (b mod 16 * 4)]
  | a :: b :: c :: r =>
      Base64.sextet_char (a / 4) :: Base64.sextet_char (a mod 4 * 16 + b / 16)
        :: Base64.sextet_char (b mod 16 * 4 + c / 64)
        :: Base64.sextet_char (c mod 64) :: encoded_body r
  end.

Fixpoint encoded_pad (l : list Z) : list ascii :=
  match l with
  | [] => []
  | [a] => [Base64.pad_char; Base64.pad_char]
  | [a; b] => [Base64.pad_char]
  | a :: b :: c :: r => encoded_pad r
  end.

Definition with_channels (b : AudioBuffer) (chs : list (list number)) : AudioBuffer :=
  {| numberOfChannels := numberOfChannels b;
     buffer_length := buffer_length b;
     buffer_sampleRate := buffer_sampleRate b;
     channels := chs |}.

(** The samples the loops store into channel [c]. *)
Definition deinterleaved (dataInt16 : list Z) (numChannels frames c : nat) : list number :=
  map (fun i => int16_sample dataInt16 (i * numChannels + c)) (seq 0 frames).

(** Whether the host offers the key-selection dialog. *)
Definition dialog_available (host : Host) : bool :=
  match chain (chain (window host) aistudio) openSelectKey with
  | Some _ => true
  | None => false
  end.


Definition hosted (has_key : promise bool) (dialog : promise unit) : Host :=
  {| window := Some {| aistudio := Some {| hasSelectedApiKey := Some has_key;
                                           openSelectKey := Some dialog |} |};
     API_KEY := Some "key" |}.

Definition unhosted : Host := {| window := None; API_KEY := Some "key" |}.

Definition not_found_error : ApiError :=
  {| error_message := Some "Requested entity was not found.";
     error_response := None |}.

Definition nonempty (o : option string) : bool :=
  match o with
  | Some s => negb (String.eqb s "")
  | None => false
  end.

Definition text_of (o : option string) : string :=
  match o with
  | Some s => s
  | None => ""
  end.

(** The required fields of a web source, and of a maps source. *)
Definition web_complete (c : SourceChunk) : bool :=
  match web c with
  | Some w => nonempty (web_uri w) && nonempty (web_title w)
  | None => false
  end.

Definition maps_complete (c : SourceChunk) : bool :=
  match maps c with
  | Some m => nonempty (maps_uri m) && nonempty (maps_title m)
  | None => false
  end.

(** The specification's chunk: the web source as it is, or the maps
    source with its review snippets, when the required fields are there. *)
Definition spec_chunk (c : SourceChunk) : option GroundingChunk :=
  if web_complete c then option_map WebChunk (web c)
  else if maps_complete c then
    option_map
      (fun m =>
         MapsChunk {| uri := text_of (maps_uri m);
                      title := text_of (maps_title m);
                      mapsData_placeAnswerSources :=
                        chain (placeAnswerSources m) reviewSnippets |})
      (maps c)
  else None.

(** The specification's extraction: the included chunks, in source order. *)
Definition spec_extractGroundingChunks (chunks : list SourceChunk)
  : list GroundingChunk :=
  flat_map (fun c => match spec_chunk c with Some g => [g] | None => [] end) chunks.

Definition chunk_web (u t : option string) : SourceChunk :=
  {| web := Some {| web_uri := u; web_title := t |}; maps := None |}.

Definition chunk_maps (u t : option string) (s : option PlaceAnswerSources)
  : SourceChunk :=
  {| web := None;
     maps := Some {| maps_uri := u; maps_title := t; placeAnswerSources := s |} |}.

Definition response_of (chunks : list SourceChunk) : GenerateContentResponse :=
  {| candidates :=
       Some [{| groundingMetadata := Some {| groundingChunks := Some chunks |} |}] |}.

Definition sample_chunks : list SourceChunk :=
  [chunk_web (Some "https://b.example") (Some "B");
   chunk_web (Some "https://x.example") None;
   chunk_maps (Some "https://maps.example/1") (Some "A")
     (Some {| reviewSnippets :=
                Some [{| reviewSnippet := Some "nice"; snippet_uri := Some "https://r.example" |}] |});
   chunk_web (Some "https://b.example") (Some "B")].

Definition image_parts (options : option ContentOptions) : list Part :=
  match chain options images with
  | Some imgs => map image_part imgs
  | None => []
  end.

Definition audio_parts (options : option ContentOptions) : list Part :=
  match chain options audio with
  | Some a => [InlineData (audio_base64Data a) (audio_mimeType a)]
  | None => []
  end.

Definition text_parts (prompt : string) : list Part :=
  if String.eqb prompt "" then [] else [Text prompt].

Definition with_inputs (imgs : option (list ImageInput)) (a : option AudioInput)
  : ContentOptions :=
  {| systemInstruction := None; thinkingBudget := None; tools := None;
     images := imgs; audio := a; geolocation := None |}.

Definition image_A : ImageInput :=
  {| image_base64Data := "QQ=="; image_mimeType := "image/png" |}.

Definition image_B : ImageInput :=
  {| image_base64Data := "Qg=="; image_mimeType := "image/jpeg" |}.

Definition audio_C : AudioInput :=
  {| audio_base64Data := "Qw=="; audio_mimeType := "audio/pcm;rate=16000" |}.

Definition wrap_budget (budget : Z) : ThinkingConfig :=
  {| thinkingConfig_thinkingBudget := budget |}.

Definition tool_config_of (position : GeolocationPosition) : ToolConfig :=
  {| retrievalConfig :=
       {| latLng := {| latLng_latitude := latitude (coords position);
                       latLng_longitude := longitude (coords position) |} |} |}.

Definition with_budget (budget : option Z) : ContentOptions :=
  {| systemInstruction := Some "Be brief."; thinkingBudget := budget;
     tools := None; images := None; audio := None; geolocation := None |}.

Definition maps_tool : Tool :=
  {| googleSearch := None; googleMaps := Some EmptySettings |}.

Definition search_tool : Tool :=
  {| googleSearch := Some EmptySettings; googleMaps := None |}.

Definition with_tools (ts : list Tool) (position : option GeolocationPosition)
  : ContentOptions :=
  {| systemInstruction := None; thinkingBudget := None; tools := Some ts;
     images := None; audio := None; geolocation := position |}.

Definition somewhere : GeolocationPosition :=
  {| coords := {| latitude := Finite 97 (-1); longitude := Finite 19 (-3) |};
     timestamp := 0 |}.

(** ** [fileToBase64] *)

(** [s.split(sep)] for a one-character separator: the segments between
    the separators, at least one. *)
Fixpoint split_on (sep : ascii) (s : string) : list string :=
  match s with
  | EmptyString => [EmptyString]
  | String c r =>
      if Ascii.eqb c sep then EmptyString :: split_on sep r
      else
        match split_on sep r with
        | seg :: segs => String c seg :: segs
        | [] => [String c EmptyString]
        end
  end.

(** Whether a character occurs in a string. *)
Fixpoint has_char (c : ascii) (s : string) : bool :=
  match s with
  | EmptyString => false
  | String x r => Ascii.eqb x c || has_char c r
  end.

(** What the host's [FileReader] does with [readAsDataURL(file)]: it
    fires [onload] with a [result] that is a string ([Some]) or not
    ([None]), or it fires [onerror]. *)
Inductive read_outcome : Type :=
| ReadLoaded (result : option string)
| ReadFailed (error : string).

Definition not_a_string : string := "Failed to convert file to base64 string.".

(** The promise resolves with [reader.result.split(',')[1]], which is
    [undefined] ([None]) when the result has no comma. *)
Definition fileToBase64 {File : Type} (readAsDataURL : File -> read_outcome)
  (file : File) : promise (option string) :=
  match readAsDataURL file with
  | ReadLoaded (Some result) => Resolved (nth_error (split_on ","%char result) 1)
  | ReadLoaded None => Rejected not_a_string
  | ReadFailed error => Rejected error
  end.

(** ** Further specification-side definitions *)

Definition sextet_no_comma (n : Z) : bool :=
  negb (Ascii.eqb (Base64.sextet_char n) ","%char).

(** The samples of a one-channel buffer. *)
Definition mono_samples (buffer : AudioBuffer) : list number :=
  match nth_error (channels buffer) 0 with
  | Some channelData => channelData
  | None => []
  end.

(** A sample that is a 16-bit integer divided by 32768. *)
Definition on_int16_grid (x : number) : Prop :=
  exists v, is_int16 v /\ x = Finite v (-15).

Definition is_event_has_key (e : event) : bool :=
  match e with
  | CallHasSelectedApiKey => true
  | _ => false
  end.

(** The uri and the title of an extracted chunk. *)
Definition chunk_uri (g : GroundingChunk) : option string :=
  match g with
  | WebChunk w => web_uri w
  | MapsChunk m => Some (uri m)
  end.

Definition chunk_title (g : GroundingChunk) : option string :=
  match g with
  | WebChunk w => web_title w
  | MapsChunk m => Some (title m)
  end.

Definition maps_requested (options : option ContentOptions) : bool :=
  match chain options tools with
  | Some ts => requests_maps ts
  | None => false
  end.

(* ================================================================== *)
(** * Part II: properties                                              *)
(* ================================================================== *)

(** ** Counted loops that fill an array *)

Lemma ta_set_length {A} (i : nat) (v : A) (arr : list A) :
  List.length (ta_set i v arr) = List.length arr.
Proof.
  revert i; induction arr as [|x r IH]; intros [|j]; simpl; auto.
Qed.

Lemma ta_set_middle {A} (l1 : list A) (x v : A) (l2 : list A) :
  ta_set (List.length l1) v (l1 ++ x :: l2) = l1 ++ v :: l2.
Proof.
  induction l1 as [|y l1 IH]; simpl; [reflexivity | now rewrite IH].
Qed.

Lemma for_loop_S {S} (n : nat) (body : nat -> S -> S) (init : S) :
  for_loop (Datatypes.S n) body init = body n (for_loop n body init).
Proof.
  unfold for_loop. rewrite seq_S, fold_left_app. reflexivity.
Qed.

(** A loop that stores [f i] at every index [i] of an array of length [n]
    produces the array of the [f i]. *)
Lemma for_loop_fill_prefix {A} (f : nat -> A) (d : A) (n k : nat) :
  (k <= n)%nat ->
  for_loop k (fun i arr => ta_set i (f i) arr) (repeat d n)
  = map f (seq 0 k) ++ repeat d (n - k).
Proof.
  induction k as [|k IH]; intro Hk.
  - simpl. now rewrite Nat.sub_0_r.
  - rewrite for_loop_S, IH by lia.
    replace (n - k)%nat with (Datatypes.S (n - Datatypes.S k)) by lia. simpl repeat.
    replace k with (List.length (map f (seq 0 k))) at 1
      by now rewrite length_map, length_seq.
    rewrite ta_set_middle, seq_S, map_app, <- app_assoc. reflexivity.
Qed.

Lemma for_loop_fill {A} (f : nat -> A) (d : A) (n : nat) :
  for_loop n (fun i arr => ta_set i (f i) arr) (repeat d n) = map f (seq 0 n).
Proof.
  rewrite for_loop_fill_prefix by lia.
  rewrite Nat.sub_diag. simpl. now rewrite app_nil_r.
Qed.

Lemma for_loop_ext {S} (n : nat) (f g : nat -> S -> S) (init : S) :
  (forall i s, (i < n)%nat -> f i s = g i s) ->
  for_loop n f init = for_loop n g init.
Proof.
  induction n as [|n IH]; intro H; [reflexivity|].
  rewrite !for_loop_S, IH by (intros; apply H; lia). apply H; lia.
Qed.

(** ** Characters *)

Lemma char_code_range (c : ascii) : is_uint8 (char_code c).
Proof.
  unfold is_uint8, char_code. pose proof (N_ascii_bounded c). lia.
Qed.

Lemma fromCharCode_char_code (c : ascii) : fromCharCode (char_code c) = c.
Proof.
  unfold fromCharCode, char_code. rewrite N2Z.id. apply ascii_N_embedding.
Qed.

Lemma char_code_fromCharCode (b : Z) :
  is_uint8 b -> char_code (fromCharCode b) = b.
Proof.
  unfold is_uint8, fromCharCode, char_code. intro H.
  rewrite N_ascii_embedding by lia. lia.
Qed.

(** ** Base64: the sextet table *)

Lemma sextet_table :
  forallb (fun k => sextet_ok (Z.of_nat k)) (seq 0 64) = true.
Proof. vm_compute. reflexivity. Qed.

Lemma sextet_ok_range (n : Z) : 0 <= n < 64 -> sextet_ok n = true.
Proof.
  intro H. pose proof sextet_table as T. rewrite forallb_forall in T.
  specialize (T (Z.to_nat n)). rewrite Z2Nat.id in T by lia.
  apply T, in_seq. lia.
Qed.

Lemma char_sextet_sextet_char (n : Z) :
  0 <= n < 64 -> Base64.char_sextet (Base64.sextet_char n) = Some n.
Proof.
  intro H. apply sextet_ok_range in H. unfold sextet_ok in H.
  apply andb_prop in H as [H _]. apply andb_prop in H as [H _].
  destruct (Base64.char_sextet _) as [m|]; [|discriminate].
  apply Z.eqb_eq in H. now subst.
Qed.

Lemma sextet_char_not_space (n : Z) :
  0 <= n < 64 -> Base64.is_ascii_whitespace (Base64.sextet_char n) = false.
Proof.
  intro H. apply sextet_ok_range in H. unfold sextet_ok in H.
  apply andb_prop in H as [H _]. apply andb_prop in H as [_ H].
  now apply negb_true_iff in H.
Qed.

Lemma sextet_char_not_pad (n : Z) :
  0 <= n < 64 -> Ascii.eqb (Base64.sextet_char n) Base64.pad_char = false.
Proof.
  intro H. apply sextet_ok_range in H. unfold sextet_ok in H.
  apply andb_prop in H as [_ H]. now apply negb_true_iff in H.
Qed.

(** ** Base64: encoding followed by decoding *)

(** Induction on a list taken three elements at a time. *)
Lemma list_ind3 {A} (P : list A -> Prop) :
  P [] -> (forall a, P [a]) -> (forall a b, P [a; b]) ->
  (forall a b c r, P r -> P (a :: b :: c :: r)) ->
  forall l, P l.
Proof.
  intros H0 H1 H2 H3.
  assert (H : forall l, P l /\ (forall a, P (a :: l)) /\ (forall a b, P (a :: b :: l))).
  { induction l as [|x l (IHa & IHb & IHc)]; repeat split; auto. }
  intro l. apply H.
Qed.

Lemma encode_octets_split (l : list Z) :
  Base64.encode_octets l = encoded_body l ++ encoded_pad l.
Proof.
  induction l as [| a | a b | a b c r IH] using list_ind3; try reflexivity.
  cbn [Base64.encode_octets encoded_body encoded_pad]. rewrite IH. reflexivity.
Qed.

Ltac octet_bounds :=
  unfold is_uint8 in *;
  repeat match goal with
         | H : Forall _ (_ :: _) |- _ => inversion H; subst; clear H
         end.

Ltac sextet_side := unfold is_uint8 in *; Z.to_euclidean_division_equations; lia.

Lemma encode_octets_no_space (l : list Z) :
  Forall is_uint8 l ->
  filter (fun c => negb (Base64.is_ascii_whitespace c)) (Base64.encode_octets l)
  = Base64.encode_octets l.
Proof.
  induction l as [| a | a b | a b c r IH] using list_ind3; intro H; octet_bounds;
    cbn [Base64.encode_octets filter];
    rewrite ?sextet_char_not_space by sextet_side; cbn [negb];
    try reflexivity.
  now rewrite IH.
Qed.

Lemma encode_octets_length (l : list Z) :
  Z.of_nat (List.length (Base64.encode_octets l)) mod 4 = 0.
Proof.
  assert (H : exists k, Z.of_nat (List.length (Base64.encode_octets l)) = 4 * k).
  { induction l as [| a | a b | a b c r [k IH]] using list_ind3.
    - now exists 0.
    - now exists 1.
    - now exists 1.
    - exists (k + 1). cbn [Base64.encode_octets List.length]. lia. }
  destruct H as [k ->]. rewrite Z.mul_comm. apply Z_mod_mult.
Qed.

Lemma encoded_body_length (l : list Z) :
  Z.of_nat (List.length (encoded_body l)) mod 4 <> 1.
Proof.
  assert (H : exists k, let n := Z.of_nat (List.length (encoded_body l)) in
                        n = 4 * k \/ n = 4 * k + 2 \/ n = 4 * k + 3).
  { induction l as [| a | a b | a b c r [k IH]] using list_ind3.
    - exists 0. now left.
    - exists 0. right. now left.
    - exists 0. right. now right.
    - exists (k + 1). cbn [encoded_body List.length] in *. lia. }
  destruct H as [k H]. cbv zeta in H. Z.to_euclidean_division_equations. lia.
Qed.

Lemma encoded_body_no_pad (l : list Z) :
  Forall is_uint8 l ->
  Forall (fun c => Ascii.eqb c Base64.pad_char = false) (encoded_body l).
Proof.
  induction l as [| a | a b | a b c r IH] using list_ind3; intro H; octet_bounds;
    cbn [encoded_body]; repeat constructor;
    try (apply sextet_char_not_pad; sextet_side).
  apply IH; assumption.
Qed.

Lemma encoded_pad_cases (l : list Z) :
  encoded_pad l = [] \/ encoded_pad l = [Base64.pad_char]
  \/ encoded_pad l = [Base64.pad_char; Base64.pad_char].
Proof.
  induction l as [| a | a b | a b c r IH] using list_ind3; cbn [encoded_pad]; auto.
Qed.

Lemma strip_trailing_pad_app (b p : list ascii) :
  Forall (fun c => Ascii.eqb c Base64.pad_char = false) b ->
  p = [] \/ p = [Base64.pad_char] \/ p = [Base64.pad_char; Base64.pad_char] ->
  Base64.strip_trailing_pad (b ++ p) = b.
Proof.
  intros Hb Hp.
  assert (Hr : Forall (fun c => Ascii.eqb c Base64.pad_char = false) (rev b))
    by now apply Forall_rev.
  unfold Base64.strip_trailing_pad. rewrite rev_app_distr.
  destruct Hp as [-> | [-> | ->]]; cbn [rev app].
  - rewrite app_nil_r. destruct (rev b) as [|c1 r1]; [reflexivity|].
    inversion Hr as [|? ? E _]; subst. now rewrite E.
  - rewrite Ascii.eqb_refl. destruct (rev b) as [|c1 r1] eqn:Eb.
    + apply (f_equal (@rev ascii)) in Eb. rewrite rev_involutive in Eb.
      now subst.
    + inversion Hr as [|? ? E _]; subst. rewrite E, <- Eb.
      apply rev_involutive.
  - rewrite !Ascii.eqb_refl. apply rev_involutive.
Qed.

Lemma strip_padding_encode_octets (l : list Z) :
  Forall is_uint8 l ->
  Base64.strip_padding (Base64.encode_octets l) = encoded_body l.
Proof.
  intro H. unfold Base64.strip_padding.
  rewrite encode_octets_length. cbn [Z.eqb].
  rewrite encode_octets_split.
  apply strip_trailing_pad_app;
    [now apply encoded_body_no_pad | apply encoded_pad_cases].
Qed.

Lemma sextets_encoded_body (l : list Z) :
  Forall is_uint8 l ->
  exists v, Base64.sextets (encoded_body l) = Some v
            /\ Base64.decode_sextets v = l.
Proof.
  induction l as [| a | a b | a b c r IH] using list_ind3; intro H; octet_bounds.
  - exists []. split; reflexivity.
  - eexists. cbn [encoded_body Base64.sextets].
    rewrite !char_sextet_sextet_char by sextet_side.
    split; [reflexivity|]. cbn [Base64.decode_sextets].
    f_equal. sextet_side.
  - eexists. cbn [encoded_body Base64.sextets].
    rewrite !char_sextet_sextet_char by sextet_side.
    split; [reflexivity|]. cbn [Base64.decode_sextets].
    repeat (f_equal; try sextet_side).
  - destruct IH as (v & Hv & Hd); [assumption|].
    eexists. cbn [encoded_body Base64.sextets].
    rewrite !char_sextet_sextet_char by sextet_side. rewrite Hv.
    split; [reflexivity|]. cbn [Base64.decode_sextets]. rewrite Hd.
    repeat (f_equal; try sextet_side).
Qed.

(** [atob] undoes [btoa] on every binary string. *)
Lemma atob_btoa (s : string) : Base64.atob (Base64.btoa s) = Some s.
Proof.
  unfold Base64.atob, Base64.btoa.
  set (l := map char_code (list_ascii_of_string s)).
  assert (Hl : Forall is_uint8 l).
  { apply Forall_forall. intros x Hx. apply in_map_iff in Hx as (c & <- & _).
    apply char_code_range. }
  rewrite list_ascii_of_string_of_list_ascii.
  rewrite encode_octets_no_space, strip_padding_encode_octets by assumption.
  pose proof (encoded_body_length l) as Hn.
  destruct (Z.eqb_spec (Z.of_nat (List.length (encoded_body l)) mod 4) 1) as [E|_];
    [contradiction|].
  destruct (sextets_encoded_body l Hl) as (v & -> & ->).
  f_equal. unfold l. rewrite map_map.
  rewrite (map_ext _ (fun c => c)) by apply fromCharCode_char_code.
  rewrite map_id. apply string_of_list_ascii_of_string.
Qed.

(** ** The codec loops *)

Lemma append_empty_r (s : string) : (s ++ "")%string = s.
Proof. induction s as [|c s IH]; simpl; [reflexivity | now rewrite IH]. Qed.

Lemma append_assoc_r (s1 s2 s3 : string) :
  ((s1 ++ s2) ++ s3)%string = (s1 ++ (s2 ++ s3))%string.
Proof. induction s1 as [|c s1 IH]; simpl; [reflexivity | now rewrite IH]. Qed.

(** The loop of [encode] builds the string of the bytes' characters. *)
Lemma encode_binary_string (bytes : list Z) (acc : string) :
  fold_left
    (fun binary b => (binary ++ String (fromCharCode b) EmptyString)%string)
    bytes acc
  = (acc ++ string_of_list_ascii (map fromCharCode bytes))%string.
Proof.
  revert acc. induction bytes as [|b r IH]; intro acc; simpl.
  - now rewrite append_empty_r.
  - rewrite IH, append_assoc_r. reflexivity.
Qed.

Lemma encode_unfold (bytes : list Z) :
  encode bytes = Base64.btoa (string_of_list_ascii (map fromCharCode bytes)).
Proof. unfold encode. now rewrite encode_binary_string. Qed.

Lemma charCodeAt_seq (s : string) :
  map (charCodeAt s) (seq 0 (String.length s))
  = map (fun c => Some (char_code c)) (list_ascii_of_string s).
Proof.
  induction s as [|c s IH]; [reflexivity|].
  cbn [String.length seq map list_ascii_of_string].
  f_equal. rewrite <- seq_shift, map_map. exact IH.
Qed.

(** The loop of [decode] stores the code unit of every character. *)
Lemma decode_unfold (base64 : string) :
  decode base64
  = option_map (fun s => map (fun c => ToUint8 (char_code c)) (list_ascii_of_string s))
               (Base64.atob base64).
Proof.
  unfold decode. destruct (Base64.atob base64) as [s|]; [|reflexivity].
  cbn [option_map]. f_equal.
  rewrite (for_loop_ext _ _
             (fun i arr =>
                ta_set i (match charCodeAt s i with
                          | Some c => ToUint8 c
                          | None => 0
                          end) arr))
    by (intros i arr _; now destruct (charCodeAt s i)).
  rewrite for_loop_fill.
  rewrite <- (map_map (charCodeAt s)
                (fun o => match o with Some c => ToUint8 c | None => 0 end)).
  rewrite charCodeAt_seq, map_map. reflexivity.
Qed.

Lemma ToUint8_id (b : Z) : is_uint8 b -> ToUint8 b = b.
Proof. unfold is_uint8, ToUint8. intro H. now apply Z.mod_small. Qed.

(** Decoding what [encode] produced gives each byte after its passage
    through a character and a [Uint8Array] store. *)
Lemma decode_encode_bytes (b : list Z) :
  decode (encode b) = Some (map (fun x => ToUint8 (char_code (fromCharCode x))) b).
Proof.
  rewrite decode_unfold, encode_unfold, atob_btoa.
  cbn [option_map]. f_equal.
  rewrite list_ascii_of_string_of_list_ascii, map_map. reflexivity.
Qed.

(** A byte survives that passage. *)
Lemma uint8_through_char (b : list Z) :
  Forall is_uint8 b ->
  map (fun x => ToUint8 (char_code (fromCharCode x))) b = b.
Proof.
  induction 1 as [|x r Hx _ IH]; [reflexivity|].
  cbn [map]. rewrite IH, char_code_fromCharCode by assumption.
  now rewrite ToUint8_id.
Qed.

(** C1: for every byte sequence [b] (every element in [0, 256)),
    decoding the base64 text produced by encoding [b] returns exactly [b]:
    [decode (encode b) = b]. *)
Theorem decode_encode_roundtrip (b : list Z) :
  Forall is_uint8 b -> decode (encode b) = Some b.
Proof.
  intro Hb. rewrite decode_encode_bytes.
  f_equal. apply uint8_through_char. exact Hb.
Qed.

Lemma decode_encode_roundtrip_witness :
  Forall is_uint8 [0; 255; 72; 105; 10]
  /\ decode (encode [0; 255; 72; 105; 10]) = Some [0; 255; 72; 105; 10].
Proof.
  assert (H : Forall is_uint8 [0; 255; 72; 105; 10])
    by (repeat constructor; unfold is_uint8; lia).
  split; [exact H | exact (decode_encode_roundtrip [0; 255; 72; 105; 10] H)].
Defined.

Example encode_Man : encode [77; 97; 110] = "TWFu".
Proof. reflexivity. Qed.

Example encode_Ma : encode [77; 97] = "TWE=".
Proof. reflexivity. Qed.

Example decode_TQ : decode "TQ==" = Some [77].
Proof. reflexivity. Qed.

Example decode_bad : decode "T*==" = None.
Proof. reflexivity. Qed.

(** ** Views of a buffer *)

Lemma wrap_int16_range (v : Z) : is_int16 (wrap_int16 v).
Proof.
  unfold is_int16, wrap_int16. cbv zeta.
  pose proof (Z.mod_pos_bound v 65536 ltac:(lia)).
  destruct (32768 <=? v mod 65536) eqn:E; [apply Z.leb_le in E | apply Z.leb_gt in E]; lia.
Qed.

Lemma wrap_int16_id (v : Z) : is_int16 v -> wrap_int16 v = v.
Proof.
  unfold is_int16, wrap_int16. cbv zeta. intro H.
  destruct (32768 <=? v mod 65536) eqn:E;
    [apply Z.leb_le in E | apply Z.leb_gt in E];
    Z.to_euclidean_division_equations; lia.
Qed.

Lemma int16_bytes_range (v : Z) : Forall is_uint8 (int16_bytes v).
Proof.
  unfold int16_bytes, is_uint8. cbv zeta.
  repeat constructor; Z.to_euclidean_division_equations; lia.
Qed.

Lemma Uint8Array_of_int16_buffer_range (a : list Z) :
  Forall is_uint8 (Uint8Array_of_int16_buffer a).
Proof.
  unfold Uint8Array_of_int16_buffer.
  induction a as [|v a IH]; cbn [flat_map]; [constructor|].
  apply Forall_app. split; [apply int16_bytes_range | exact IH].
Qed.

Lemma Uint8Array_of_int16_buffer_length (a : list Z) :
  List.length (Uint8Array_of_int16_buffer a) = (2 * List.length a)%nat.
Proof.
  unfold Uint8Array_of_int16_buffer.
  induction a as [|v a IH]; cbn [flat_map]; [reflexivity|].
  rewrite length_app, IH. cbn [int16_bytes List.length]. lia.
Qed.

Lemma int16_view_of_buffer (a : list Z) :
  Forall is_int16 a -> int16_view (Uint8Array_of_int16_buffer a) = a.
Proof.
  unfold Uint8Array_of_int16_buffer.
  induction 1 as [|v a Hv _ IH]; [reflexivity|].
  cbn [flat_map int16_bytes app int16_view]. rewrite IH. f_equal.
  unfold is_int16, wrap_int16 in *. cbv zeta.
  destruct (32768 <=? _) eqn:E;
    [apply Z.leb_le in E | apply Z.leb_gt in E];
    Z.to_euclidean_division_equations; lia.
Qed.

(** Reading back, as 16-bit integers, the bytes of an [Int16Array]. *)
Lemma Int16Array_of_int16_buffer (a : list Z) :
  Forall is_int16 a ->
  Int16Array_of_buffer (Uint8Array_of_int16_buffer a) = Some a.
Proof.
  intro H. unfold Int16Array_of_buffer.
  rewrite Uint8Array_of_int16_buffer_length.
  replace (Nat.even (2 * List.length a)) with true
    by (symmetry; apply Nat.even_spec; now exists (List.length a)).
  now rewrite int16_view_of_buffer.
Qed.

Lemma int16_view_nth (bytes : list Z) (k : nat) :
  (2 * k + 1 < List.length bytes)%nat ->
  nth_error (int16_view bytes) k = Some (int16At bytes k).
Proof.
  revert bytes.
  induction k as [|k IH]; intros [|lo [|hi r]] H; cbn [List.length] in H; try lia.
  - reflexivity.
  - cbn [int16_view nth_error]. rewrite IH by lia.
    unfold int16At. do 2 f_equal.
    replace (2 * S k)%nat with (S (S (2 * k))) by lia.
    replace (S (S (2 * k)) + 1)%nat with (S (S (2 * k + 1))) by lia.
    reflexivity.
Qed.

Lemma int16_view_length (bytes : list Z) (n : nat) :
  List.length bytes = (2 * n)%nat -> List.length (int16_view bytes) = n.
Proof.
  revert bytes. induction n as [|n IH]; intros [|lo [|hi r]] H;
    cbn [List.length] in H; try lia; [reflexivity|].
  cbn [int16_view List.length]. rewrite IH by lia. reflexivity.
Qed.

(** ** Loops that fill an array of any initial contents *)

Lemma skipn_cons_nth {A} (k : nat) (arr : list A) :
  (k < List.length arr)%nat ->
  exists x, skipn k arr = x :: skipn (S k) arr.
Proof.
  revert arr. induction k as [|k IH]; intros [|y arr] H; cbn [List.length] in H; try lia.
  - now exists y.
  - destruct (IH arr) as [x Hx]; [lia|]. exists x. exact Hx.
Qed.

Lemma ta_set_after_prefix {A} (pre arr : list A) (v : A) :
  (List.length pre < List.length arr)%nat ->
  ta_set (List.length pre) v (pre ++ skipn (List.length pre) arr)
  = (pre ++ [v]) ++ skipn (S (List.length pre)) arr.
Proof.
  intro H. destruct (skipn_cons_nth _ _ H) as [x ->].
  rewrite ta_set_middle, <- app_assoc. reflexivity.
Qed.

Lemma for_loop_fill_from {A} (f : nat -> A) (arr : list A) (k : nat) :
  (k <= List.length arr)%nat ->
  for_loop k (fun i a => ta_set i (f i) a) arr = map f (seq 0 k) ++ skipn k arr.
Proof.
  induction k as [|k IH]; intro Hk; [reflexivity|].
  rewrite for_loop_S, IH by lia.
  pose proof (ta_set_after_prefix (map f (seq 0 k)) arr (f k)) as E.
  rewrite length_map, length_seq in E. rewrite E by lia.
  rewrite seq_S, map_app. reflexivity.
Qed.

Lemma for_loop_fill_all {A} (f : nat -> A) (arr : list A) :
  for_loop (List.length arr) (fun i a => ta_set i (f i) a) arr
  = map f (seq 0 (List.length arr)).
Proof.
  rewrite for_loop_fill_from by lia. rewrite skipn_all. apply app_nil_r.
Qed.

Lemma nth_error_map_seq {A} (f : nat -> A) (n i : nat) :
  (i < n)%nat -> nth_error (map f (seq 0 n)) i = Some (f i).
Proof.
  intro H. rewrite nth_error_map, nth_error_seq.
  destruct (Nat.ltb_spec i n); [reflexivity | lia].
Qed.

(** ** [decodeAudioData] *)



Lemma spans_buffer_elements (data : Uint8Array) :
  spans_buffer data -> array_elements data = array_buffer data.
Proof.
  intros [Hoff Hlen]. unfold array_elements. rewrite Hoff, Hlen.
  cbn [skipn]. apply firstn_all.
Qed.





(** ** [createPcmBlob] *)

Lemma float32_get_seq (data : list number) :
  map (float32_get data) (seq 0 (List.length data)) = data.
Proof.
  induction data as [|x r IH]; [reflexivity|].
  cbn [List.length seq map]. f_equal.
  rewrite <- seq_shift, map_map. exact IH.
Qed.

(** The loop of [createPcmBlob] converts every sample. *)
Lemma createPcmBlob_int16 (data : list number) :
  for_loop (List.length data)
    (fun i int16 => ta_set i (ToInt16 (mul_32768 (float32_get data i))) int16)
    (repeat 0 (List.length data))
  = map (fun x => ToInt16 (mul_32768 x)) data.
Proof.
  rewrite (for_loop_fill (fun i => ToInt16 (mul_32768 (float32_get data i)))).
  rewrite <- (map_map (float32_get data) (fun x => ToInt16 (mul_32768 x))).
  now rewrite float32_get_seq.
Qed.

Lemma ToInt16_range (x : number) : is_int16 (ToInt16 x).
Proof.
  destruct x; cbn [ToInt16]; [unfold is_int16; lia .. | apply wrap_int16_range].
Qed.

Lemma js_round_scaled (m : Z) (p : positive) :
  js_round (Qmake m p * inject_Z 32768)%Q
  = (m * 32768 * 2 + Z.pos p) / (Z.pos p * 2).
Proof.
  unfold js_round, Qfloor, Qplus, Qmult, inject_Z. cbn [Qnum Qden].
  rewrite !Pos.mul_1_r, Z.mul_1_l, Pos2Z.inj_mul. reflexivity.
Qed.

Lemma round_of_integer (t d : Z) : 0 < d -> (t * d * 2 + d) / (d * 2) = t.
Proof.
  intro H. symmetry. apply (Z.div_unique _ _ t d); lia.
Qed.

(** For a sample in [-1, 1) the scaled value is truncated without
    wrapping, and truncation is within one unit of rounding. *)
Lemma truncate_scaled_near_round (m e : Z) (q : Q) :
  number_value (Finite m e) = Some q ->
  (-1 <= q)%Q -> (q < 1)%Q ->
  is_int16 (truncate m (e + 15))
  /\ Z.abs (truncate m (e + 15) - js_round (q * inject_Z 32768)%Q) <= 1.
Proof.
  intros Hv Hlo Hhi. cbn [number_value] in Hv. injection Hv as <-.
  unfold truncate, is_int16.
  destruct (Z.leb_spec 0 e) as [He|He].
  - change (inject_Z (m * 2 ^ e)) with (Qmake (m * 2 ^ e) 1) in *.
    rewrite js_round_scaled.
    unfold Qle, Qlt in Hlo, Hhi. cbn [Qnum Qden] in Hlo, Hhi.
    destruct (Z.leb_spec 0 (e + 15)) as [_|]; [|lia].
    rewrite Z.pow_add_r by lia. change (2 ^ 15) with 32768.
    set (M := m * 2 ^ e) in *.
    replace (m * (2 ^ e * 32768)) with (M * 32768) by (unfold M; ring).
    replace ((M * 32768 * 2 + 1) / (1 * 2)) with (M * 32768)
      by (Z.to_euclidean_division_equations; lia).
    lia.
  - assert (Hd : 0 < 2 ^ (- e)) by (apply Z.pow_pos_nonneg; lia).
    rewrite js_round_scaled.
    unfold Qle, Qlt in Hlo, Hhi. cbn [Qnum Qden] in Hlo, Hhi.
    rewrite Z2Pos.id in * by assumption.
    destruct (Z.leb_spec 0 (e + 15)) as [He'|He'].
    + assert (Ht : 0 < 2 ^ (e + 15)) by (apply Z.pow_pos_nonneg; lia).
      assert (Hk : 2 ^ (e + 15) * 2 ^ (- e) = 32768).
      { rewrite <- Z.pow_add_r by lia.
        replace (e + 15 + - e) with 15 by lia. reflexivity. }
      set (t := 2 ^ (e + 15)) in *. set (d := 2 ^ (- e)) in *.
      replace (m * 32768 * 2 + d) with (m * t * d * 2 + d)
        by (rewrite <- Hk; ring).
      rewrite round_of_integer by assumption.
      split; [nia | lia].
    + assert (Hd' : 0 < 2 ^ (- (e + 15))) by (apply Z.pow_pos_nonneg; lia).
      assert (Hk : 2 ^ (- e) = 32768 * 2 ^ (- (e + 15))).
      { replace (- e) with (15 + - (e + 15)) at 1 by lia.
        rewrite Z.pow_add_r by lia. reflexivity. }
      set (d' := 2 ^ (- (e + 15))) in *. rewrite Hk in *.
      replace (m * 32768 * 2 + 32768 * d') with ((m * 2 + d') * 32768) by ring.
      replace (32768 * d' * 2) with (d' * 2 * 32768) by ring.
      rewrite Z.div_mul_cancel_r by lia.
      pose proof (Z.quot_rem' m d') as Hq.
      pose proof (Z.rem_bound_abs m d' ltac:(lia)) as Hr.
      pose proof (Z.rem_sign_nz m d') as Hs.
      pose proof (Z.div_mod (m * 2 + d') (d' * 2) ltac:(lia)) as Hf.
      pose proof (Z.mod_pos_bound (m * 2 + d') (d' * 2) ltac:(lia)) as Hb.
      set (tq := Z.quot m d') in *. set (r := Z.rem m d') in *.
      set (f := (m * 2 + d') / (d' * 2)) in *.
      set (g := (m * 2 + d') mod (d' * 2)) in *.
      clearbody tq r f g.
      assert (Hsign : (0 <= m -> 0 <= r) /\ (m <= 0 -> r <= 0)).
      { split; intro; destruct (Z.eq_dec r 0) as [|Hnz]; try lia;
          specialize (Hs Hnz); rewrite Z.sgn_pos_iff, ?Z.sgn_neg_iff in *;
          destruct (Z.sgn_spec r) as [[? Hsr]|[[? Hsr]|[? Hsr]]];
          destruct (Z.sgn_spec m) as [[? Hsm]|[[? Hsm]|[? Hsm]]]; lia. }
      clear Hs. split; nia.
Qed.

Lemma createPcmBlob_data (data : list number) (sampleRate : Z) :
  blob_data (createPcmBlob data sampleRate)
  = encode (Uint8Array_of_int16_buffer (map (fun x => ToInt16 (mul_32768 x)) data)).
Proof.
  unfold createPcmBlob. cbv zeta. cbn [blob_data].
  now rewrite createPcmBlob_int16.
Qed.

(** C2, as the code has it: the blob's type is
    ["audio/pcm;rate=<sampleRate>"]; its data decode, as little-endian
    16-bit integers, to the samples multiplied by 32768, truncated toward
    zero and wrapped (not clamped) into 16 bits; and for a sample in
    [-1, 1) the decoded integer is within one unit of
    [round(sample * 32768)]. *)
Theorem createPcmBlob_decoded (data : list number) (sampleRate : Z) :
  blob_mimeType (createPcmBlob data sampleRate)
  = ("audio/pcm;rate=" ++ string_of_Z sampleRate)%string
  /\ exists bytes ints,
       decode (blob_data (createPcmBlob data sampleRate)) = Some bytes
       /\ Int16Array_of_buffer bytes = Some ints
       /\ ints = map (fun x => ToInt16 (mul_32768 x)) data
       /\ (forall i m e,
             nth_error data i = Some (Finite m e) ->
             nth_error ints i = Some (wrap_int16 (truncate m (e + 15))))
       /\ (forall i x q,
             nth_error data i = Some x ->
             number_value x = Some q -> (-1 <= q)%Q -> (q < 1)%Q ->
             exists v, nth_error ints i = Some v
                       /\ Z.abs (v - js_round (q * inject_Z 32768)%Q) <= 1).
Proof.
  split; [reflexivity|].
  set (ints := map (fun x => ToInt16 (mul_32768 x)) data).
  assert (Hints : Forall is_int16 ints).
  { apply Forall_forall. intros v Hv. apply in_map_iff in Hv as (x & <- & _).
    apply ToInt16_range. }
  exists (Uint8Array_of_int16_buffer ints), ints.
  split; [|split; [|split; [|split]]].
  - rewrite createPcmBlob_data, decode_encode_bytes.
    f_equal. apply uint8_through_char, Uint8Array_of_int16_buffer_range.
  - now apply Int16Array_of_int16_buffer.
  - reflexivity.
  - intros i m e Hi. unfold ints. rewrite nth_error_map, Hi. reflexivity.
  - intros i x q Hi Hq Hlo Hhi.
    destruct x as [| |m e]; try discriminate.
    destruct (truncate_scaled_near_round m e q Hq Hlo Hhi) as [Hr Hn].
    exists (truncate m (e + 15)). split; [|exact Hn].
    unfold ints. rewrite nth_error_map, Hi. cbn [option_map mul_32768 scale_pow2 ToInt16].
    now rewrite wrap_int16_id.
Qed.

Lemma createPcmBlob_decoded_witness :
  (-1 <= Qmake (-3) 8)%Q /\ (Qmake (-3) 8 < 1)%Q
  /\ exists bytes ints v,
       decode (blob_data (createPcmBlob [Finite 1 (-1); Finite (-3) (-3)] 16000))
         = Some bytes
       /\ Int16Array_of_buffer bytes = Some ints
       /\ nth_error ints 1 = Some v
       /\ Z.abs (v - js_round (Qmake (-3) 8 * inject_Z 32768)%Q) <= 1.
Proof.
  assert (Hlo : (-1 <= Qmake (-3) 8)%Q) by (unfold Qle; cbn; lia).
  assert (Hhi : (Qmake (-3) 8 < 1)%Q) by (unfold Qlt; cbn; lia).
  split; [exact Hlo | split; [exact Hhi|]].
  destruct (createPcmBlob_decoded [Finite 1 (-1); Finite (-3) (-3)] 16000)
    as (_ & bytes & ints & Hd & Hv & _ & _ & Hnear).
  destruct (Hnear 1%nat (Finite (-3) (-3)) (Qmake (-3) 8) eq_refl eq_refl Hlo Hhi)
    as (v & Hnth & Habs).
  exists bytes, ints, v. repeat split; assumption.
Defined.

(** C2 as stated fails at the sample 1.0, which lies in [-1, 1]:
    1.0 * 32768 = 32768 wraps to -32768, at distance 65536 from
    [round(1.0 * 32768)]. *)
Lemma createPcmBlob_full_scale_wraps :
  number_value (Finite 1 0) = Some (inject_Z 1)
  /\ (-1 <= inject_Z 1)%Q /\ (inject_Z 1 <= 1)%Q
  /\ decode (blob_data (createPcmBlob [Finite 1 0] 16000)) = Some [0; 128]
  /\ Int16Array_of_buffer [0; 128] = Some [-32768]
  /\ js_round (inject_Z 1 * inject_Z 32768)%Q = 32768
  /\ ~ Z.abs (-32768 - js_round (inject_Z 1 * inject_Z 32768)%Q) <= 1.
Proof.
  split; [reflexivity|].
  split; [unfold Qle; cbn; lia|].
  split; [unfold Qle; cbn; lia|].
  split; [reflexivity|].
  split; [reflexivity|].
  split; [reflexivity|].
  change (js_round (inject_Z 1 * inject_Z 32768)%Q) with 32768. cbn. lia.
Qed.

(** ** Substrings *)

Lemma includes_unfold (s needle : string) :
  includes s needle
  = if starts_with s needle then true
    else match s with
         | EmptyString => false
         | String _ r => includes r needle
         end.
Proof. destruct s; reflexivity. Qed.

Lemma starts_with_refl (s : string) : starts_with s s = true.
Proof.
  induction s as [|c s IH]; [reflexivity|].
  cbn [starts_with]. now rewrite Ascii.eqb_refl, IH.
Qed.

Lemma starts_with_append (s t needle : string) :
  starts_with s needle = true -> starts_with (s ++ t) needle = true.
Proof.
  revert s. induction needle as [|a needle IH]; intros s H; [reflexivity|].
  destruct s as [|b s]; [discriminate|].
  cbn [starts_with append] in *.
  apply andb_prop in H as [-> H]. now rewrite IH.
Qed.

Lemma includes_append_l (s t needle : string) :
  includes s needle = true -> includes (s ++ t) needle = true.
Proof.
  induction s as [|c s IH]; intro H.
  - rewrite includes_unfold in H.
    destruct (starts_with "" needle) eqn:E; [|discriminate].
    rewrite includes_unfold.
    now rewrite (starts_with_append "" t needle E).
  - rewrite includes_unfold in H. rewrite includes_unfold.
    destruct (starts_with (String c s) needle) eqn:E.
    + now rewrite (starts_with_append _ t _ E).
    + cbn [append]. destruct (starts_with (String c (s ++ t)) needle);
        [reflexivity | now apply IH].
Qed.

Lemma includes_append_r (s t : string) : includes (s ++ t) t = true.
Proof.
  induction s as [|c s IH].
  - cbn [append]. rewrite includes_unfold. now rewrite starts_with_refl.
  - cbn [append]. rewrite includes_unfold.
    destruct (starts_with (String c (s ++ t)) t); [reflexivity | exact IH].
Qed.

Lemma includes_append_self (s t : string) : includes (s ++ t) s = true.
Proof.
  rewrite includes_unfold.
  now rewrite (starts_with_append s t s (starts_with_refl s)).
Qed.

(** ** [handleApiError] *)

Lemma truthy_Some (o : option string) (s : string) :
  truthy o = Some s <-> o = Some s /\ s <> "".
Proof.
  unfold truthy. destruct o as [x|]; [|split; [discriminate | intros [H _]; discriminate]].
  destruct (String.eqb_spec x "") as [->|Hne]; split.
  - discriminate.
  - intros [H Hn]. injection H as <-. contradiction.
  - intro H. injection H as <-. split; [reflexivity | assumption].
  - intros [H _]. exact H.
Qed.

(** C7, as the code has it: the message is the error's [message] when
    that is a non-empty string, else ["API Error: <status> <statusText>"]
    with an optional [" - <detail>"] when the error has a response with a
    status, else the generic text; when it contains "Requested entity was
    not found." the result is that message followed by the re-selection
    hint, and the key-selection dialog is called once if the host offers
    it and not at all otherwise; in every other case the message is
    returned as it is and the dialog is not called. *)
Theorem handleApiError_normalized (host : Host) (error : ApiError) :
  let base := base_message error in
  let result := handleApiError host error in
  (forall m, error_message error = Some m -> m <> "" -> base = m)
  /\ (truthy (error_message error) = None ->
      forall response st,
        error_response error = Some response ->
        status response = Some st -> st <> 0 ->
        base = ("API Error: " ++ string_of_Z st ++ " "
                  ++ template_text (statusText response)
                  ++ match truthy (chain (response_data response) data_message) with
                     | Some detail => " - " ++ detail
                     | None => ""
                     end)%string)
  /\ (truthy (error_message error) = None ->
      chain (error_response error) status = None
      \/ chain (error_response error) status = Some 0 ->
      base = unexpected_error)
  /\ (includes base not_found_text = true ->
      snd result = (base ++ reselect_hint)%string
      /\ includes (snd result) base = true
      /\ includes (snd result) not_found_text = true
      /\ includes (snd result) reselect_hint = true
      /\ dialog_calls (fst result) = if dialog_available host then 1%nat else 0%nat)
  /\ (includes base not_found_text = false ->
      snd result = base /\ dialog_calls (fst result) = 0%nat).
Proof.
  cbv zeta. split; [|split; [|split; [|split]]].
  - intros m Hm Hne. unfold base_message.
    now rewrite (proj2 (truthy_Some _ m) (conj Hm Hne)).
  - intros Hnone response st Hr Hst Hnz. unfold base_message.
    rewrite Hnone, Hr, Hst. cbv zeta.
    destruct (Z.eqb_spec st 0) as [|_]; [contradiction|].
    destruct (truthy (chain (response_data response) data_message)) as [detail|].
    + rewrite !append_assoc_r. reflexivity.
    + now rewrite append_empty_r.
  - intros Hnone Hst. unfold base_message. rewrite Hnone.
    destruct (error_response error) as [response|]; [|reflexivity].
    cbn [chain] in Hst. destruct Hst as [-> | ->]; reflexivity.
  - intro Hinc. unfold handleApiError, dialog_available. cbv zeta. rewrite Hinc.
    assert (H1 : includes (base_message error ++ reselect_hint) (base_message error) = true)
      by apply includes_append_self.
    assert (H2 : includes (base_message error ++ reselect_hint) not_found_text = true)
      by now apply includes_append_l.
    assert (H3 : includes (base_message error ++ reselect_hint) reselect_hint = true)
      by apply includes_append_r.
    destruct (chain (chain (window host) aistudio) openSelectKey) as [[u|r]|];
      cbn [fst snd]; repeat split; auto.
  - intro Hinc. unfold handleApiError. cbv zeta. rewrite Hinc. split; reflexivity.
Qed.

Lemma handleApiError_normalized_witness :
  includes (base_message not_found_error) not_found_text = true
  /\ snd (handleApiError (hosted (Resolved true) (Resolved tt)) not_found_error)
     = "Requested entity was not found. This might indicate an issue with your selected API key. Please try selecting it again."
  /\ dialog_calls (fst (handleApiError (hosted (Resolved true) (Resolved tt)) not_found_error))
     = 1%nat.
Proof.
  assert (Hinc : includes (base_message not_found_error) not_found_text = true)
    by reflexivity.
  split; [exact Hinc|].
  destruct (handleApiError_normalized (hosted (Resolved true) (Resolved tt)) not_found_error)
    as (_ & _ & _ & Hfound & _).
  destruct (Hfound Hinc) as (Hmsg & _ & _ & _ & Hcalls).
  split; [exact Hmsg | exact Hcalls].
Defined.

(** C7 as stated fails where the host offers no key-selection dialog:
    the message of [{message: "Requested entity was not found."}] gets
    the hint, but no call to the dialog is made. *)
Lemma handleApiError_no_dialog_without_host :
  includes (base_message not_found_error) not_found_text = true
  /\ handleApiError unhosted not_found_error
     = ([ConsoleError "Gemini API error:"],
        "Requested entity was not found. This might indicate an issue with your selected API key. Please try selecting it again.")
  /\ dialog_calls (fst (handleApiError unhosted not_found_error)) <> 1%nat.
Proof.
  split; [reflexivity|]. split; [reflexivity|]. cbn. discriminate.
Qed.

Example handleApiError_response :
  snd (handleApiError unhosted
         {| error_message := None;
            error_response :=
              Some {| status := Some 404; statusText := Some "Not Found";
                      response_data := Some {| data_message := Some "no such model" |} |} |})
  = "API Error: 404 Not Found - no such model".
Proof. reflexivity. Qed.

Example handleApiError_generic :
  snd (handleApiError unhosted {| error_message := Some ""; error_response := None |})
  = "An unexpected error occurred.".
Proof. reflexivity. Qed.

(** ** [checkAndSelectVeoApiKey] *)

(** C9, as the code has it: the check never resolves to [false].  It
    resolves to [true] when the host's key-selection API is unavailable,
    when a key is already selected, and when no key is selected and the
    call that opens the dialog resolves; a rejection of
    [hasSelectedApiKey] or of [openSelectKey] reaches the caller. *)
Theorem checkAndSelectVeoApiKey_outcomes (host : Host) :
  let api := chain (window host) aistudio in
  snd (checkAndSelectVeoApiKey host) <> Resolved false
  /\ (chain api hasSelectedApiKey = None ->
      checkAndSelectVeoApiKey host = ([ConsoleWarn warn_no_aistudio], Resolved true))
  /\ (chain api hasSelectedApiKey = Some (Resolved true) ->
      checkAndSelectVeoApiKey host = ([CallHasSelectedApiKey], Resolved true))
  /\ (chain api hasSelectedApiKey = Some (Resolved false) ->
      forall u, chain api openSelectKey = Some (Resolved u) ->
      snd (checkAndSelectVeoApiKey host) = Resolved true
      /\ dialog_calls (fst (checkAndSelectVeoApiKey host)) = 1%nat)
  /\ (forall reason,
        chain api hasSelectedApiKey = Some (Rejected reason) ->
        snd (checkAndSelectVeoApiKey host) = Rejected reason)
  /\ (forall reason,
        chain api hasSelectedApiKey = Some (Resolved false) ->
        chain api openSelectKey = Some (Rejected reason) ->
        snd (checkAndSelectVeoApiKey host) = Rejected reason).
Proof.
  cbv zeta. unfold checkAndSelectVeoApiKey.
  destruct (chain (chain (window host) aistudio) hasSelectedApiKey)
    as [[[|]|r]|];
    destruct (chain (chain (window host) aistudio) openSelectKey)
      as [[u|r']|];
    cbn [negb fst snd];
    repeat split; try discriminate; try reflexivity;
    intros; try discriminate; try reflexivity;
    repeat match goal with
           | H : Some _ = Some _ |- _ => injection H as H; try subst
           end;
    try discriminate; try reflexivity; auto.
Qed.

Lemma checkAndSelectVeoApiKey_outcomes_witness :
  snd (checkAndSelectVeoApiKey (hosted (Resolved false) (Resolved tt))) = Resolved true
  /\ dialog_calls (fst (checkAndSelectVeoApiKey (hosted (Resolved false) (Resolved tt))))
     = 1%nat.
Proof.
  destruct (checkAndSelectVeoApiKey_outcomes (hosted (Resolved false) (Resolved tt)))
    as (_ & _ & _ & Hopen & _).
  exact (Hopen eq_refl tt eq_refl).
Defined.

(** C9 as stated fails when the dialog's promise rejects: the [await]
    throws and the check rejects instead of returning [true]. *)
Lemma checkAndSelectVeoApiKey_dialog_rejection :
  checkAndSelectVeoApiKey (hosted (Resolved false) (Rejected "dialog dismissed"))
  = ([CallHasSelectedApiKey; ConsoleWarn warn_no_key; CallOpenSelectKey],
     Rejected "dialog dismissed")
  /\ snd (checkAndSelectVeoApiKey (hosted (Resolved false) (Rejected "dialog dismissed")))
     <> Resolved true.
Proof. split; [reflexivity | discriminate]. Qed.

(** ** [extractGroundingChunks] *)

Lemma truthy_nonempty (o : option string) :
  truthy o = if nonempty o then Some (text_of o) else None.
Proof.
  destruct o as [s|]; [|reflexivity]. cbn [truthy nonempty text_of].
  now destruct (String.eqb s "").
Qed.

Lemma snippets_copied (l : list ReviewSnippet) :
  map (fun snippet => {| reviewSnippet := reviewSnippet snippet;
                         snippet_uri := snippet_uri snippet |}) l = l.
Proof.
  induction l as [|[r u] l IH]; [reflexivity|]. cbn [map]. now rewrite IH.
Qed.

Lemma extract_step_spec (acc : list GroundingChunk) (c : SourceChunk) :
  extract_step acc c
  = acc ++ match spec_chunk c with Some g => [g] | None => [] end.
Proof.
  unfold extract_step, spec_chunk, web_complete, maps_complete.
  destruct c as [[w|] [m|]]; cbn [web maps chain option_map];
    rewrite ?truthy_nonempty;
    repeat match goal with
           | |- context [nonempty ?o] => destruct (nonempty o); cbn [andb]
           end;
    rewrite ?app_nil_r; try reflexivity;
    destruct (chain (placeAnswerSources m) reviewSnippets) as [l|];
    cbn [uri title]; rewrite ?snippets_copied; reflexivity.
Qed.

Lemma extract_loop_spec (chunks : list SourceChunk) (acc : list GroundingChunk) :
  fold_left extract_step chunks acc = acc ++ spec_extractGroundingChunks chunks.
Proof.
  revert acc. induction chunks as [|c r IH]; intro acc; cbn [fold_left].
  - now rewrite app_nil_r.
  - rewrite IH, extract_step_spec, <- app_assoc. reflexivity.
Qed.

(** C6: without a chunk list in the first candidate's grounding metadata
    the result is empty; otherwise the result lists, in source order and
    without sorting or deduplication, the chunks whose required fields
    (uri and title of the web source, or uri and title of the maps
    source) are non-empty, the web source as it is and the maps source
    with its review snippets copied; a chunk whose titles are missing is
    left out. *)
Theorem extractGroundingChunks_spec (response : GenerateContentResponse) :
  (first_candidate_chunks response = None ->
   extractGroundingChunks response = [])
  /\ (forall chunks,
        first_candidate_chunks response = Some chunks ->
        extractGroundingChunks response = spec_extractGroundingChunks chunks)
  /\ (forall c, spec_chunk c <> None <->
                web_complete c = true \/ maps_complete c = true)
  /\ (forall c w, web c = Some w -> web_complete c = true ->
                  spec_chunk c = Some (WebChunk w))
  /\ (forall c m, maps c = Some m -> web_complete c = false ->
                  maps_complete c = true ->
                  exists u t,
                    maps_uri m = Some u /\ maps_title m = Some t
                    /\ spec_chunk c
                       = Some (MapsChunk
                                 {| uri := u; title := t;
                                    mapsData_placeAnswerSources :=
                                      chain (placeAnswerSources m) reviewSnippets |}))
  /\ (forall c,
        nonempty (chain (web c) web_title) = false ->
        nonempty (chain (maps c) maps_title) = false ->
        spec_chunk c = None).
Proof.
  split; [|split; [|split; [|split; [|split]]]].
  - intro H. unfold extractGroundingChunks. now rewrite H.
  - intros chunks H. unfold extractGroundingChunks. rewrite H.
    now rewrite extract_loop_spec.
  - intro c. unfold spec_chunk, web_complete, maps_complete.
    destruct (web c) as [w|], (maps c) as [m|]; cbn [option_map];
      repeat match goal with
             | |- context [nonempty ?o] => destruct (nonempty o); cbn [andb]
             end;
      split; intro H; try discriminate; try congruence; auto;
      try (destruct H; discriminate).
  - intros c w Hw Hc. unfold spec_chunk. now rewrite Hc, Hw.
  - intros c m Hm Hw Hc. unfold spec_chunk. rewrite Hw, Hc, Hm.
    cbn [option_map].
    unfold maps_complete in Hc. rewrite Hm in Hc.
    apply andb_prop in Hc as [Hu Ht].
    destruct (maps_uri m) as [u|]; [|discriminate].
    destruct (maps_title m) as [t|]; [|discriminate].
    exists u, t. split; [reflexivity | split; reflexivity].
  - intros c Hw Hm. unfold spec_chunk, web_complete, maps_complete.
    destruct (web c) as [w|], (maps c) as [m|]; cbn [chain] in Hw, Hm;
      rewrite ?Hw, ?Hm, ?andb_false_r; reflexivity.
Qed.

Lemma extractGroundingChunks_spec_witness :
  extractGroundingChunks (response_of sample_chunks)
  = [WebChunk {| web_uri := Some "https://b.example"; web_title := Some "B" |};
     MapsChunk {| uri := "https://maps.example/1"; title := "A";
                  mapsData_placeAnswerSources :=
                    Some [{| reviewSnippet := Some "nice";
                             snippet_uri := Some "https://r.example" |}] |};
     WebChunk {| web_uri := Some "https://b.example"; web_title := Some "B" |}].
Proof.
  destruct (extractGroundingChunks_spec (response_of sample_chunks))
    as (_ & Hsome & _).
  exact (Hsome sample_chunks eq_refl).
Defined.

(** ** [generateContent] *)

Lemma assemble_parts_order (prompt : string) (options : option ContentOptions) :
  assemble_parts prompt options
  = image_parts options ++ audio_parts options ++ text_parts prompt.
Proof.
  unfold assemble_parts, image_parts, audio_parts, text_parts. cbv zeta.
  destruct (chain options images) as [[|img imgs]|];
    destruct (chain options audio) as [a|];
    destruct (String.eqb prompt ""); cbn [List.length Nat.ltb Nat.leb app map];
    rewrite ?app_nil_r, <- ?app_assoc; reflexivity.
Qed.

(** With a key configured the request is built and handed to the SDK. *)
Lemma generateContent_request_built (host : Host) (key model_name prompt : string)
  (options : option ContentOptions) :
  truthy (API_KEY host) = Some key ->
  generateContent_request host model_name prompt options
  = (fst (assemble_config options),
     inr {| model := model_name;
            contents := assemble_parts prompt options;
            config := snd (assemble_config options) |}).
Proof.
  intro H. unfold generateContent_request, getGeminiClient. rewrite H.
  destruct (assemble_config options) as [log cfg]. reflexivity.
Qed.

(** C4: the parts of the request are the image parts in the caller's
    order, then the audio part if there is one, then the text part; an
    omitted input adds no part; images [A, B], audio C and text "t" give
    exactly [A, B, C, {text: "t"}]. *)
Theorem generateContent_parts_order (host : Host) (key model_name prompt : string)
  (options : option ContentOptions) :
  truthy (API_KEY host) = Some key ->
  (exists log cfg,
     generateContent_request host model_name prompt options
     = (log, inr {| model := model_name;
                    contents := image_parts options ++ audio_parts options
                                  ++ text_parts prompt;
                    config := cfg |}))
  /\ (chain options images = None -> image_parts options = [])
  /\ (chain options audio = None -> audio_parts options = [])
  /\ (forall A B C,
        exists log cfg,
          generateContent_request host model_name "t"
            (Some (with_inputs (Some [A; B]) (Some C)))
          = (log, inr {| model := model_name;
                         contents :=
                           [InlineData (image_base64Data A) (image_mimeType A);
                            InlineData (image_base64Data B) (image_mimeType B);
                            InlineData (audio_base64Data C) (audio_mimeType C);
                            Text "t"];
                         config := cfg |})).
Proof.
  intro H. split; [|split; [|split]].
  - rewrite (generateContent_request_built host key) by assumption.
    rewrite assemble_parts_order. eauto.
  - intro E. unfold image_parts. now rewrite E.
  - intro E. unfold audio_parts. now rewrite E.
  - intros A B C.
    rewrite (generateContent_request_built host key) by assumption. eauto.
Qed.

Lemma generateContent_parts_order_witness :
  exists log cfg,
    generateContent_request unhosted "gemini-2.5-flash" "t"
      (Some (with_inputs (Some [image_A; image_B]) (Some audio_C)))
    = (log, inr {| model := "gemini-2.5-flash";
                   contents := [InlineData "QQ==" "image/png";
                                InlineData "Qg==" "image/jpeg";
                                InlineData "Qw==" "audio/pcm;rate=16000";
                                Text "t"];
                   config := cfg |}).
Proof.
  destruct (generateContent_parts_order unhosted "key" "gemini-2.5-flash" "t"
              (Some (with_inputs (Some [image_A; image_B]) (Some audio_C)))
              eq_refl) as (H & _).
  exact H.
Defined.

(** C10: with the empty string as the prompt no text part is added: the
    parts are the image parts and the audio part only. *)
Theorem generateContent_empty_prompt (host : Host) (key model_name : string)
  (options : option ContentOptions) :
  truthy (API_KEY host) = Some key ->
  exists log cfg,
    generateContent_request host model_name "" options
    = (log, inr {| model := model_name;
                   contents := image_parts options ++ audio_parts options;
                   config := cfg |})
    /\ forall s, ~ In (Text s) (image_parts options ++ audio_parts options).
Proof.
  intro H. rewrite (generateContent_request_built host key) by assumption.
  rewrite assemble_parts_order. cbn [text_parts String.eqb]. rewrite app_nil_r.
  do 2 eexists. split; [reflexivity|].
  intros s Hin. apply in_app_or in Hin as [Hin|Hin].
  - unfold image_parts in Hin. destruct (chain options images) as [imgs|]; [|easy].
    apply in_map_iff in Hin as (img & Himg & _). discriminate.
  - unfold audio_parts in Hin. destruct (chain options audio) as [a|]; [|easy].
    destruct Hin as [Hin|[]]. discriminate.
Qed.

Lemma generateContent_empty_prompt_witness :
  exists log cfg,
    generateContent_request unhosted "gemini-2.5-flash" ""
      (Some (with_inputs (Some [image_A]) (Some audio_C)))
    = (log, inr {| model := "gemini-2.5-flash";
                   contents := [InlineData "QQ==" "image/png";
                                InlineData "Qw==" "audio/pcm;rate=16000"];
                   config := cfg |}).
Proof.
  destruct (generateContent_empty_prompt unhosted "key" "gemini-2.5-flash"
              (Some (with_inputs (Some [image_A]) (Some audio_C))) eq_refl)
    as (log & cfg & H & _).
  exists log, cfg. exact H.
Defined.

Lemma requests_maps_spec (ts : list Tool) :
  requests_maps ts = true <-> exists tool, In tool ts /\ googleMaps tool <> None.
Proof.
  unfold requests_maps. rewrite existsb_exists.
  split; intros (tool & Hin & H); exists tool; split; auto;
    destruct (googleMaps tool); congruence.
Qed.

Lemma assemble_config_fields (options : option ContentOptions) :
  let cfg := snd (assemble_config options) in
  config_systemInstruction cfg = chain options systemInstruction
  /\ config_tools cfg = chain options tools
  /\ config_thinkingConfig cfg = option_map wrap_budget (chain options thinkingBudget)
  /\ config_toolConfig cfg
     = match chain options tools with
       | Some ts =>
           if requests_maps ts
           then option_map tool_config_of (chain options geolocation)
           else None
       | None => None
       end.
Proof.
  unfold assemble_config. cbv zeta.
  destruct (chain options tools) as [ts|];
    [destruct (requests_maps ts); [destruct (chain options geolocation)|]|];
    cbn [snd config_systemInstruction config_tools config_thinkingConfig
           config_toolConfig option_map];
    destruct (chain options thinkingBudget); repeat split; reflexivity.
Qed.

(** C5: the thinking budget is wrapped into a [thinkingConfig] exactly
    when the caller provided one, a budget of 0 included, and the
    [thinkingConfig] is absent otherwise; [systemInstruction] and [tools]
    are passed as they are. *)
Theorem generateContent_thinking_config (host : Host) (key model_name prompt : string)
  (options : option ContentOptions) :
  truthy (API_KEY host) = Some key ->
  exists log request,
    generateContent_request host model_name prompt options = (log, inr request)
    /\ config_systemInstruction (config request) = chain options systemInstruction
    /\ config_tools (config request) = chain options tools
    /\ (forall budget,
          config_thinkingConfig (config request)
            = Some {| thinkingConfig_thinkingBudget := budget |}
          <-> chain options thinkingBudget = Some budget)
    /\ (config_thinkingConfig (config request) = None
        <-> chain options thinkingBudget = None)
    /\ (chain options thinkingBudget = Some 0 ->
        config_thinkingConfig (config request)
          = Some {| thinkingConfig_thinkingBudget := 0 |}).
Proof.
  intro H. rewrite (generateContent_request_built host key) by assumption.
  do 2 eexists. split; [reflexivity|]. cbn [config].
  destruct (assemble_config_fields options) as (Hs & Ht & Hb & _).
  rewrite Hs, Ht, Hb.
  destruct (chain options thinkingBudget) as [b|]; cbn [option_map];
    repeat split; try congruence; try discriminate.
  all: intro E; injection E as <-; reflexivity.
Qed.

Lemma generateContent_thinking_config_witness :
  exists log request,
    generateContent_request unhosted "gemini-2.5-pro" "hi" (Some (with_budget (Some 0)))
      = (log, inr request)
    /\ config_systemInstruction (config request) = Some "Be brief."
    /\ config_thinkingConfig (config request)
       = Some {| thinkingConfig_thinkingBudget := 0 |}.
Proof.
  destruct (generateContent_thinking_config unhosted "key" "gemini-2.5-pro" "hi"
              (Some (with_budget (Some 0))) eq_refl)
    as (log & request & Hreq & Hs & _ & _ & _ & Hzero).
  exists log, request. split; [exact Hreq|]. split; [exact Hs|].
  exact (Hzero eq_refl).
Defined.

(** C8: the config gets a [toolConfig] carrying the supplied latitude and
    longitude exactly when the tool list has a tool with [googleMaps] and
    a geolocation was supplied; when such a tool is there without a
    geolocation, the request is still made, without the [toolConfig], and
    a warning is logged. *)
Theorem generateContent_tool_config (host : Host) (key model_name prompt : string)
  (options : option ContentOptions) :
  truthy (API_KEY host) = Some key ->
  exists log request,
    generateContent_request host model_name prompt options = (log, inr request)
    /\ (forall tc,
          config_toolConfig (config request) = Some tc
          <-> exists ts tool position,
                chain options tools = Some ts
                /\ In tool ts /\ googleMaps tool <> None
                /\ chain options geolocation = Some position
                /\ tc = {| retrievalConfig :=
                             {| latLng :=
                                  {| latLng_latitude := latitude (coords position);
                                     latLng_longitude := longitude (coords position) |}
                             |} |})
    /\ (forall ts,
          chain options tools = Some ts -> requests_maps ts = true ->
          chain options geolocation = None ->
          config_toolConfig (config request) = None
          /\ log = [ConsoleWarn warn_no_geolocation]).
Proof.
  intro H. rewrite (generateContent_request_built host key) by assumption.
  do 2 eexists. split; [reflexivity|]. cbn [config].
  destruct (assemble_config_fields options) as (_ & _ & _ & Htc).
  split.
  - intro tc. rewrite Htc. split.
    + destruct (chain options tools) as [ts|]; [|discriminate].
      destruct (requests_maps ts) eqn:Em; [|discriminate].
      destruct (chain options geolocation) as [position|]; [|discriminate].
      cbn [option_map]. intro E. injection E as <-.
      apply requests_maps_spec in Em as (tool & Hin & Hg).
      exists ts, tool, position. repeat split; assumption.
    + intros (ts & tool & position & -> & Hin & Hg & -> & ->).
      replace (requests_maps ts) with true
        by (symmetry; apply requests_maps_spec; eauto).
      reflexivity.
  - intros ts Hts Hm Hgeo. rewrite Htc, Hts, Hm, Hgeo. split; [reflexivity|].
    unfold assemble_config. cbv zeta. rewrite Hts, Hm, Hgeo. reflexivity.
Qed.

Lemma generateContent_tool_config_witness :
  exists log request,
    generateContent_request unhosted "gemini-2.5-flash" "cafes nearby"
      (Some (with_tools [search_tool; maps_tool] (Some somewhere)))
      = (log, inr request)
    /\ config_toolConfig (config request)
       = Some {| retrievalConfig :=
                   {| latLng := {| latLng_latitude := Finite 97 (-1);
                                   latLng_longitude := Finite 19 (-3) |} |} |}.
Proof.
  destruct (generateContent_tool_config unhosted "key" "gemini-2.5-flash" "cafes nearby"
              (Some (with_tools [search_tool; maps_tool] (Some somewhere))) eq_refl)
    as (log & request & Hreq & Hiff & _).
  exists log, request. split; [exact Hreq|].
  apply Hiff. exists [search_tool; maps_tool], maps_tool, somewhere.
  split; [reflexivity|]. split; [right; left; reflexivity|].
  split; [discriminate|]. split; reflexivity.
Defined.

Example generateContent_maps_without_geolocation :
  generateContent_request unhosted "gemini-2.5-flash" "cafes nearby"
    (Some (with_tools [maps_tool] None))
  = ([ConsoleWarn warn_no_geolocation],
     inr {| model := "gemini-2.5-flash";
            contents := [Text "cafes nearby"];
            config := {| config_systemInstruction := None;
                         config_thinkingConfig := None;
                         config_tools := Some [maps_tool];
                         config_toolConfig := None |} |}).
Proof. reflexivity. Qed.

Example generateContent_without_key :
  generateContent_request {| window := None; API_KEY := None |} "gemini-2.5-flash"
    "hi" None
  = ([ConsoleError "API_KEY is not defined."],
     inl "Gemini API key is not configured.").
Proof. reflexivity. Qed.

(* ================================================================== *)
(** * Part III: further properties of the code                         *)
(* ================================================================== *)

(** ** [decode] and [encode] *)

Lemma index_of_None (c : ascii) (l : list ascii) :
  ~ In c l -> Base64.index_of c l = None.
Proof.
  induction l as [|x r IH]; intro H; [reflexivity|].
  cbn [Base64.index_of]. destruct (Ascii.eqb_spec c x) as [->|_].
  - exfalso. apply H. now left.
  - rewrite IH; [reflexivity|]. intro Hin. apply H. now right.
Qed.

Lemma sextets_None (l : list ascii) (c : ascii) :
  In c l -> Base64.char_sextet c = None -> Base64.sextets l = None.
Proof.
  induction l as [|x r IH]; intros Hin Hc; [contradiction|].
  cbn [Base64.sextets]. destruct Hin as [->|Hin].
  - now rewrite Hc.
  - rewrite (IH Hin Hc). now destruct (Base64.char_sextet x).
Qed.

Lemma strip_trailing_pad_keeps (l : list ascii) (c : ascii) :
  In c l -> Ascii.eqb c Base64.pad_char = false ->
  In c (Base64.strip_trailing_pad l).
Proof.
  intros Hin Hc. unfold Base64.strip_trailing_pad.
  assert (Hrev : In c (rev l)) by now apply in_rev in Hin.
  destruct (rev l) as [|c1 r1]; [assumption|].
  destruct (Ascii.eqb_spec c1 Base64.pad_char) as [->|_]; [|assumption].
  destruct Hrev as [<-|Hrev]; [now rewrite Ascii.eqb_refl in Hc|].
  destruct r1 as [|c2 r2]; [contradiction|].
  destruct (Ascii.eqb_spec c2 Base64.pad_char) as [->|_].
  - destruct Hrev as [<-|Hrev]; [now rewrite Ascii.eqb_refl in Hc|].
    now apply in_rev in Hrev.
  - now apply in_rev in Hrev.
Qed.

(** X2: a text with a character that is neither in the base64 alphabet,
    nor ASCII whitespace, nor [=] is refused by [decode] (the exception
    of [atob] is not caught). *)
Theorem decode_rejects_foreign_character (base64 : string) (c : ascii) :
  In c (list_ascii_of_string base64) ->
  ~ In c Base64.alphabet ->
  Base64.is_ascii_whitespace c = false ->
  c <> Base64.pad_char ->
  decode base64 = None.
Proof.
  intros Hin Halpha Hws Hpad. rewrite decode_unfold.
  replace (Base64.atob base64) with (@None string); [reflexivity|].
  symmetry. unfold Base64.atob.
  set (data := filter _ _).
  assert (Hdata : In c data).
  { apply filter_In. split; [assumption | now rewrite Hws]. }
  assert (Hstrip : In c (Base64.strip_padding data)).
  { unfold Base64.strip_padding. destruct (_ =? 0); [|assumption].
    apply strip_trailing_pad_keeps; [assumption|].
    now destruct (Ascii.eqb_spec c Base64.pad_char). }
  destruct (_ =? 1); [reflexivity|].
  rewrite (sextets_None _ c Hstrip); [reflexivity|].
  now apply index_of_None.
Qed.

Lemma decode_rejects_foreign_character_witness : decode "TW*u" = None.
Proof.
  apply (decode_rejects_foreign_character "TW*u" "*"%char).
  - cbn. tauto.
  - cbn. intro H.
    repeat (destruct H as [H|H]; [discriminate|]). exact H.
  - reflexivity.
  - discriminate.
Defined.

Lemma string_of_list_ascii_length (l : list ascii) :
  String.length (string_of_list_ascii l) = List.length l.
Proof. induction l as [|c l IH]; cbn; [reflexivity | now rewrite IH]. Qed.

Lemma encode_octets_length_exact (l : list Z) :
  List.length (Base64.encode_octets l) = (4 * ((List.length l + 2) / 3))%nat.
Proof.
  induction l as [| a | a b | a b c r IH] using list_ind3; try reflexivity.
  cbn [Base64.encode_octets List.length]. rewrite IH.
  replace (S (S (S (List.length r))) + 2)%nat
    with (1 * 3 + (List.length r + 2))%nat by lia.
  rewrite Nat.div_add_l by lia. lia.
Qed.

(** X3: the text [encode] returns has four characters for every three
    bytes, a final group of one or two bytes counting as three. *)
Theorem encode_length (bytes : list Z) :
  String.length (encode bytes) = (4 * ((List.length bytes + 2) / 3))%nat.
Proof.
  rewrite encode_unfold. unfold Base64.btoa.
  rewrite string_of_list_ascii_length, encode_octets_length_exact.
  now rewrite length_map, list_ascii_of_string_of_list_ascii, length_map.
Qed.

(** X4: [encode] is injective on byte sequences: two arrays with the same
    base64 text are the same array. *)
Theorem encode_injective (b1 b2 : list Z) :
  Forall is_uint8 b1 -> Forall is_uint8 b2 ->
  encode b1 = encode b2 -> b1 = b2.
Proof.
  intros H1 H2 E.
  pose proof (decode_encode_bytes b1) as D1.
  pose proof (decode_encode_bytes b2) as D2.
  rewrite uint8_through_char in D1, D2 by assumption.
  rewrite E in D1. congruence.
Qed.

Lemma encode_injective_witness :
  Forall is_uint8 [77; 97] /\ Forall is_uint8 [77; 97]
  /\ encode [77; 97] = encode [77; 97] /\ [77; 97] = [77; 97].
Proof.
  assert (H : Forall is_uint8 [77; 97])
    by (repeat constructor; unfold is_uint8; lia).
  split; [exact H | split; [exact H | split; [reflexivity|]]].
  exact (encode_injective [77; 97] [77; 97] H H eq_refl).
Defined.

(** ** [decodeAudioData] on a buffer of any even number of bytes *)

Lemma ta_set_out_of_range {A} (i : nat) (v : A) (arr : list A) :
  (List.length arr <= i)%nat -> ta_set i v arr = arr.
Proof.
  revert i. induction arr as [|x r IH]; intros [|j] H; cbn [List.length] in H;
    try lia; try reflexivity.
  cbn [ta_set]. rewrite IH by lia. reflexivity.
Qed.

(** A loop that runs past the end of the array stores nothing there. *)
Lemma for_loop_fill_over {A} (f : nat -> A) (arr : list A) (d : nat) :
  for_loop (List.length arr + d) (fun i a => ta_set i (f i) a) arr
  = map f (seq 0 (List.length arr)).
Proof.
  induction d as [|d IH].
  - rewrite Nat.add_0_r. apply for_loop_fill_all.
  - rewrite Nat.add_succ_r, for_loop_S, IH.
    apply ta_set_out_of_range. rewrite length_map, length_seq. lia.
Qed.

Lemma decodeAudioData_outer_over (dataInt16 : list Z) (numChannels frames over : nat)
  (buffer0 : AudioBuffer) (k : nat) :
  Forall (fun ch => List.length ch = frames) (channels buffer0) ->
  (k <= List.length (channels buffer0))%nat ->
  for_loop k
    (fun channel state =>
       match state with
       | None => None
       | Some buffer =>
           match nth_error (channels buffer) channel with
           | None => None
           | Some channelData =>
               let channelData :=
                 for_loop (frames + over)
                   (fun i channelData =>
                      ta_set i
                        (int16_sample dataInt16 (i * numChannels + channel))
                        channelData)
                   channelData in
               Some (set_channel buffer channel channelData)
           end
       end)
    (Some buffer0)
  = Some (with_channels buffer0
            (map (deinterleaved dataInt16 numChannels frames) (seq 0 k)
             ++ skipn k (channels buffer0))).
Proof.
  intros Hlen. induction k as [|k IH]; intro Hk.
  - destruct buffer0; reflexivity.
  - rewrite for_loop_S, IH by lia. clear IH.
    set (pre := map (deinterleaved dataInt16 numChannels frames) (seq 0 k)).
    assert (Hpre : List.length pre = k)
      by (unfold pre; now rewrite length_map, length_seq).
    destruct (skipn_cons_nth k (channels buffer0)) as [x Hx]; [lia|].
    assert (Hxlen : List.length x = frames).
    { rewrite <- (firstn_skipn k (channels buffer0)), Hx in Hlen.
      apply Forall_app in Hlen as [_ Hlen]. now inversion Hlen. }
    cbn [with_channels channels]. rewrite Hx.
    rewrite nth_error_app2 by lia. rewrite Hpre, Nat.sub_diag.
    cbn [nth_error]. cbv zeta.
    rewrite <- Hxlen at 1. rewrite for_loop_fill_over, Hxlen.
    unfold set_channel, with_channels. cbn [numberOfChannels buffer_length
      buffer_sampleRate channels]. do 2 f_equal.
    rewrite <- Hpre at 1. rewrite ta_set_middle.
    rewrite seq_S, map_app, <- app_assoc. reflexivity.
Qed.

(** The buffer [decodeAudioData] returns when the backing buffer has
    [2 * n] bytes: the one the context allocated for [n / numChannels]
    frames, every channel filled with its de-interleaved samples. *)
Lemma decodeAudioData_result (data : Uint8Array) (ctx : AudioContext)
  (sampleRate : Z) (numChannels n : nat) (buffer0 : AudioBuffer) :
  (0 < numChannels)%nat ->
  List.length (array_buffer data) = (2 * n)%nat ->
  createBuffer ctx numChannels (n / numChannels) sampleRate = Some buffer0 ->
  List.length (channels buffer0) = numChannels ->
  Forall (fun ch => List.length ch = (n / numChannels)%nat) (channels buffer0) ->
  decodeAudioData data ctx sampleRate numChannels
  = Some (with_channels buffer0
            (map (deinterleaved (int16_view (array_buffer data)) numChannels
                    (n / numChannels))
                 (seq 0 numChannels))).
Proof.
  intros Hnc Hdata Hctx Hchs Hlen.
  unfold decodeAudioData, Int16Array_of_buffer.
  replace (Nat.even (List.length (array_buffer data))) with true
    by (symmetry; apply Nat.even_spec; exists n; lia).
  rewrite (int16_view_length (array_buffer data) n) by assumption.
  cbv zeta. rewrite Hctx.
  assert (Hle : (n / numChannels <= (n + numChannels - 1) / numChannels)%nat)
    by (apply Nat.Div0.div_le_mono; lia).
  replace ((n + numChannels - 1) / numChannels)%nat
    with (n / numChannels + ((n + numChannels - 1) / numChannels - n / numChannels))%nat
    by lia.
  rewrite (decodeAudioData_outer_over _ _ _ _ _ numChannels Hlen) by lia.
  rewrite skipn_all2 by lia. now rewrite app_nil_r.
Qed.

Lemma int16At_range (bytes : list Z) (k : nat) : is_int16 (int16At bytes k).
Proof. apply wrap_int16_range. Qed.

(** X5: whatever window the array is, the frames are those of its
    whole backing buffer.  When the buffer has an even number [2 * n] of
    bytes, also one that is not a whole number of frames, the result
    holds [n / numChannels] frames (the 16-bit integers of an incomplete
    last frame are dropped), one array of that length per channel, and
    the sample at frame [i] of channel [c] is the integer at position
    [i * numChannels + c] of the buffer over 32768. *)
Theorem decodeAudioData_whole_frames (data : Uint8Array) (ctx : AudioContext)
  (sampleRate : Z) (numChannels n : nat) (buffer0 : AudioBuffer) :
  (0 < numChannels)%nat ->
  List.length (array_buffer data) = (2 * n)%nat ->
  createBuffer ctx numChannels (n / numChannels) sampleRate = Some buffer0 ->
  List.length (channels buffer0) = numChannels ->
  Forall (fun ch => List.length ch = (n / numChannels)%nat) (channels buffer0) ->
  exists buffer,
    decodeAudioData data ctx sampleRate numChannels = Some buffer
    /\ List.length (channels buffer) = numChannels
    /\ Forall (fun ch => List.length ch = (n / numChannels)%nat) (channels buffer)
    /\ forall c i, (c < numChannels)%nat -> (i < n / numChannels)%nat ->
         sample_at buffer c i
         = Some (Finite (int16At (array_buffer data) (i * numChannels + c)) (-15)).
Proof.
  intros Hnc Hdata Hctx Hchs Hlen.
  rewrite (decodeAudioData_result data ctx sampleRate numChannels n buffer0)
    by assumption.
  eexists. split; [reflexivity|]. cbn [with_channels channels].
  split; [now rewrite length_map, length_seq|]. split.
  - apply Forall_forall. intros ch Hch.
    apply in_map_iff in Hch as (c & <- & _).
    unfold deinterleaved. now rewrite length_map, length_seq.
  - intros c i Hc Hi. unfold sample_at. cbn [with_channels channels].
    rewrite nth_error_map_seq by assumption.
    unfold deinterleaved. rewrite nth_error_map_seq by assumption.
    unfold int16_sample.
    pose proof (Nat.Div0.mul_div_le n numChannels) as Hmul.
    rewrite int16_view_nth by nia. reflexivity.
Qed.

Lemma decodeAudioData_whole_frames_witness :
  exists buffer,
    decodeAudioData
      {| array_buffer := [1; 0; 2; 0; 3; 0; 4; 0; 5; 0]; byteOffset := 4;
         array_length := 4 |}
      plain_context 24000 2
    = Some buffer
    /\ List.length (channels buffer) = 2%nat
    /\ Forall (fun ch => List.length ch = (5 / 2)%nat) (channels buffer)
    /\ forall c i, (c < 2)%nat -> (i < 5 / 2)%nat ->
         sample_at buffer c i
         = Some (Finite (int16At [1; 0; 2; 0; 3; 0; 4; 0; 5; 0] (i * 2 + c)) (-15)).
Proof.
  apply (decodeAudioData_whole_frames
           {| array_buffer := [1; 0; 2; 0; 3; 0; 4; 0; 5; 0]; byteOffset := 4;
              array_length := 4 |}
           plain_context 24000 2 5
           {| numberOfChannels := 2; buffer_length := 2; buffer_sampleRate := 24000;
              channels := repeat (repeat (Finite 0 0) 2) 2 |}).
  - lia.
  - reflexivity.
  - reflexivity.
  - reflexivity.
  - repeat constructor.
Defined.

(** X6: every sample [decodeAudioData] produces lies in [-1, 1): the
    value 1.0 is never produced. *)
Theorem decodeAudioData_sample_range (data : Uint8Array) (ctx : AudioContext)
  (sampleRate : Z) (numChannels n : nat) (buffer0 buffer : AudioBuffer)
  (c i : nat) (x : number) :
  (0 < numChannels)%nat ->
  List.length (array_buffer data) = (2 * n)%nat ->
  createBuffer ctx numChannels (n / numChannels) sampleRate = Some buffer0 ->
  List.length (channels buffer0) = numChannels ->
  Forall (fun ch => List.length ch = (n / numChannels)%nat) (channels buffer0) ->
  decodeAudioData data ctx sampleRate numChannels = Some buffer ->
  sample_at buffer c i = Some x ->
  exists q, number_value x = Some q /\ (-1 <= q)%Q /\ (q < 1)%Q.
Proof.
  intros Hnc Hdata Hctx Hchs Hlen Hdec Hx.
  rewrite (decodeAudioData_result data ctx sampleRate numChannels n buffer0)
    in Hdec by assumption.
  injection Hdec as <-. unfold sample_at in Hx. cbn [with_channels channels] in Hx.
  destruct (nth_error _ c) as [ch|] eqn:Ech; [|discriminate].
  apply nth_error_In in Ech. apply in_map_iff in Ech as (c' & <- & Hc').
  apply nth_error_In in Hx. unfold deinterleaved in Hx.
  apply in_map_iff in Hx as (i' & <- & Hi').
  apply in_seq in Hc'. apply in_seq in Hi'.
  pose proof (Nat.Div0.mul_div_le n numChannels) as Hmul.
  assert (Hk : (i' * numChannels + c' < n)%nat) by nia.
  unfold int16_sample. rewrite int16_view_nth by lia.
  exists (Qmake (int16At (array_buffer data) (i' * numChannels + c')) 32768).
  split; [reflexivity|].
  pose proof (int16At_range (array_buffer data) (i' * numChannels + c')) as Hv.
  unfold is_int16 in Hv. unfold Qle, Qlt. cbn [Qnum Qden]. lia.
Qed.

Lemma decodeAudioData_sample_range_witness :
  exists q, number_value (Finite (-32768) (-15)) = Some q
            /\ (-1 <= q)%Q /\ (q < 1)%Q.
Proof.
  apply (decodeAudioData_sample_range (Uint8Array_of_bytes [0; 128; 255; 127])
           plain_context 24000 1 2
           {| numberOfChannels := 1; buffer_length := 2; buffer_sampleRate := 24000;
              channels := repeat (repeat (Finite 0 0) 2) 1 |}
           {| numberOfChannels := 1; buffer_length := 2; buffer_sampleRate := 24000;
              channels := [[Finite (-32768) (-15); Finite 32767 (-15)]] |}
           0%nat 0%nat (Finite (-32768) (-15))).
  - lia.
  - reflexivity.
  - reflexivity.
  - reflexivity.
  - repeat constructor.
  - reflexivity.
  - reflexivity.
Defined.

(** ** Round trips between bytes and samples *)

Lemma int16_bytes_of_pair (lo hi : Z) :
  is_uint8 lo -> is_uint8 hi ->
  int16_bytes (wrap_int16 (lo + 256 * hi)) = [lo; hi].
Proof.
  unfold is_uint8, int16_bytes, wrap_int16. cbv zeta. intros Hlo Hhi.
  destruct (32768 <=? _) eqn:E;
    [apply Z.leb_le in E | apply Z.leb_gt in E];
    repeat f_equal; Z.to_euclidean_division_equations; lia.
Qed.

(** The bytes of the integers read from an even number of bytes. *)
Lemma buffer_of_int16_view (n : nat) (bytes : list Z) :
  List.length bytes = (2 * n)%nat -> Forall is_uint8 bytes ->
  Uint8Array_of_int16_buffer (int16_view bytes) = bytes.
Proof.
  revert bytes. induction n as [|n IH]; intros [|lo [|hi r]] Hlen Hb;
    cbn [List.length] in Hlen; try lia; [reflexivity|].
  inversion Hb as [|? ? Hlo Hb']; subst. inversion Hb' as [|? ? Hhi Hr]; subst.
  cbn [int16_view]. unfold Uint8Array_of_int16_buffer in *. cbn [flat_map].
  rewrite int16_bytes_of_pair by assumption. rewrite IH by (assumption || lia).
  reflexivity.
Qed.

Lemma int16_sample_seq (d : list Z) :
  map (fun i => int16_sample d (i * 1 + 0)) (seq 0 (List.length d))
  = map (fun v => Finite v (-15)) d.
Proof.
  rewrite (map_ext _ (int16_sample d))
    by (intro i; f_equal; lia).
  induction d as [|v d IH]; [reflexivity|].
  cbn [List.length seq map]. f_equal.
  rewrite <- seq_shift, map_map. exact IH.
Qed.

(** The samples of the one channel [decodeAudioData] fills. *)
Lemma decodeAudioData_mono (data : Uint8Array) (ctx : AudioContext) (sampleRate : Z)
  (n : nat) (buffer0 : AudioBuffer) :
  List.length (array_buffer data) = (2 * n)%nat ->
  createBuffer ctx 1 n sampleRate = Some buffer0 ->
  List.length (channels buffer0) = 1%nat ->
  Forall (fun ch => List.length ch = n) (channels buffer0) ->
  exists buffer,
    decodeAudioData data ctx sampleRate 1 = Some buffer
    /\ mono_samples buffer
       = map (fun v => Finite v (-15)) (int16_view (array_buffer data)).
Proof.
  intros Hdata Hctx Hchs Hlen.
  pose proof (decodeAudioData_result data ctx sampleRate 1 n buffer0) as H.
  rewrite Nat.div_1_r in H. rewrite H by (assumption || lia).
  eexists. split; [reflexivity|].
  unfold mono_samples. cbn [with_channels channels seq map nth_error].
  unfold deinterleaved.
  rewrite <- (int16_view_length (array_buffer data) n Hdata) at 1.
  apply int16_sample_seq.
Qed.

Lemma ToInt16_of_grid (v : Z) :
  is_int16 v -> ToInt16 (mul_32768 (Finite v (-15))) = v.
Proof.
  intro H. cbn [mul_32768 scale_pow2 ToInt16].
  change (-15 + 15) with 0. unfold truncate. cbn [Z.leb Z.compare Z.pow].
  rewrite Z.mul_1_r. now apply wrap_int16_id.
Qed.

Lemma int16_view_range (bytes : list Z) : Forall is_int16 (int16_view bytes).
Proof.
  assert (H : forall n bytes, (List.length bytes <= n)%nat ->
                              Forall is_int16 (int16_view bytes)).
  { induction n as [|n IH]; intros [|lo [|hi r]] Hlen;
      cbn [List.length] in Hlen; try lia; cbn [int16_view]; constructor.
    - apply wrap_int16_range.
    - apply IH. lia. }
  apply (H (List.length bytes)). lia.
Qed.

(** Samples made from a buffer and packed again give the bytes of the
    buffer back. *)
Lemma pcm_buffer_roundtrip (data : Uint8Array) (ctx : AudioContext)
  (sampleRate blobRate : Z) (n : nat) (buffer0 : AudioBuffer) :
  Forall is_uint8 (array_buffer data) ->
  List.length (array_buffer data) = (2 * n)%nat ->
  createBuffer ctx 1 n sampleRate = Some buffer0 ->
  List.length (channels buffer0) = 1%nat ->
  Forall (fun ch => List.length ch = n) (channels buffer0) ->
  exists buffer,
    decodeAudioData data ctx sampleRate 1 = Some buffer
    /\ decode (blob_data (createPcmBlob (mono_samples buffer) blobRate))
       = Some (array_buffer data).
Proof.
  intros Hb Hdata Hctx Hchs Hlen.
  destruct (decodeAudioData_mono data ctx sampleRate n buffer0)
    as (buffer & Hdec & Hmono); try assumption.
  exists buffer. split; [exact Hdec|].
  rewrite createPcmBlob_data, Hmono, map_map.
  rewrite (map_ext_in _ (fun v => v)), map_id.
  - rewrite (buffer_of_int16_view n) by assumption.
    rewrite decode_encode_bytes. f_equal. now apply uint8_through_char.
  - intros v Hv. apply ToInt16_of_grid.
    pose proof (int16_view_range (array_buffer data)) as Hr.
    rewrite Forall_forall in Hr. now apply Hr.
Qed.

(** X8: the PCM bytes of an array that spans its buffer, turned into
    one channel of samples by [decodeAudioData] and back into a blob by
    [createPcmBlob], decode to the same bytes. *)
Theorem pcm_bytes_roundtrip (data : Uint8Array) (ctx : AudioContext)
  (sampleRate blobRate : Z) (n : nat) (buffer0 : AudioBuffer) :
  spans_buffer data ->
  Forall is_uint8 (array_elements data) ->
  List.length (array_elements data) = (2 * n)%nat ->
  createBuffer ctx 1 n sampleRate = Some buffer0 ->
  List.length (channels buffer0) = 1%nat ->
  Forall (fun ch => List.length ch = n) (channels buffer0) ->
  exists buffer,
    decodeAudioData data ctx sampleRate 1 = Some buffer
    /\ decode (blob_data (createPcmBlob (mono_samples buffer) blobRate))
       = Some (array_elements data).
Proof.
  intros Hspan Hb Hdata Hctx Hchs Hlen.
  rewrite (spans_buffer_elements data Hspan) in *.
  now apply (pcm_buffer_roundtrip data ctx sampleRate blobRate n buffer0).
Qed.

Lemma pcm_bytes_roundtrip_witness :
  spans_buffer (Uint8Array_of_bytes [0; 128; 255; 127; 1; 0])
  /\ exists buffer,
       decodeAudioData (Uint8Array_of_bytes [0; 128; 255; 127; 1; 0])
         plain_context 24000 1
       = Some buffer
       /\ decode (blob_data (createPcmBlob (mono_samples buffer) 16000))
          = Some (array_elements (Uint8Array_of_bytes [0; 128; 255; 127; 1; 0])).
Proof.
  assert (Hspan : spans_buffer (Uint8Array_of_bytes [0; 128; 255; 127; 1; 0]))
    by (split; reflexivity).
  split; [exact Hspan|].
  apply (pcm_bytes_roundtrip (Uint8Array_of_bytes [0; 128; 255; 127; 1; 0])
           plain_context 24000 16000 3
           {| numberOfChannels := 1; buffer_length := 3; buffer_sampleRate := 24000;
              channels := repeat (repeat (Finite 0 0) 3) 1 |}).
  - exact Hspan.
  - repeat constructor; unfold is_uint8; lia.
  - reflexivity.
  - reflexivity.
  - reflexivity.
  - repeat constructor.
Defined.

(** X9: samples that are 16-bit integers over 32768 survive the way
    through [createPcmBlob], [decode] and [decodeAudioData] (on the fresh
    array [decode] returns) unchanged. *)
Theorem pcm_samples_roundtrip (samples : list number) (ctx : AudioContext)
  (sampleRate blobRate : Z) (buffer0 : AudioBuffer) :
  Forall on_int16_grid samples ->
  createBuffer ctx 1 (List.length samples) sampleRate = Some buffer0 ->
  List.length (channels buffer0) = 1%nat ->
  Forall (fun ch => List.length ch = List.length samples) (channels buffer0) ->
  exists bytes buffer,
    decode (blob_data (createPcmBlob samples blobRate)) = Some bytes
    /\ decodeAudioData (Uint8Array_of_bytes bytes) ctx sampleRate 1 = Some buffer
    /\ mono_samples buffer = samples.
Proof.
  intros Hgrid Hctx Hchs Hlen.
  set (ints := map (fun x => ToInt16 (mul_32768 x)) samples).
  assert (Hints : Forall is_int16 ints).
  { apply Forall_forall. intros v Hv. apply in_map_iff in Hv as (x & <- & _).
    apply ToInt16_range. }
  assert (Hback : map (fun v => Finite v (-15)) ints = samples).
  { unfold ints. rewrite map_map. rewrite <- (map_id samples) at 2.
    apply map_ext_in. intros x Hx. rewrite Forall_forall in Hgrid.
    destruct (Hgrid x Hx) as (v & Hv & ->). now rewrite ToInt16_of_grid. }
  exists (Uint8Array_of_int16_buffer ints).
  destruct (decodeAudioData_mono
              (Uint8Array_of_bytes (Uint8Array_of_int16_buffer ints)) ctx sampleRate
              (List.length samples) buffer0)
    as (buffer & Hdec & Hmono); try assumption.
  { cbn [Uint8Array_of_bytes array_buffer].
    rewrite Uint8Array_of_int16_buffer_length. unfold ints.
    now rewrite length_map. }
  exists buffer. split; [|split; [exact Hdec|]].
  - rewrite createPcmBlob_data, decode_encode_bytes. f_equal.
    apply uint8_through_char, Uint8Array_of_int16_buffer_range.
  - rewrite Hmono. cbn [Uint8Array_of_bytes array_buffer].
    rewrite int16_view_of_buffer by assumption. exact Hback.
Qed.

Lemma pcm_samples_roundtrip_witness :
  exists bytes buffer,
    decode (blob_data (createPcmBlob [Finite (-32768) (-15); Finite 12 (-15)] 16000))
      = Some bytes
    /\ decodeAudioData (Uint8Array_of_bytes bytes) plain_context 24000 1 = Some buffer
    /\ mono_samples buffer = [Finite (-32768) (-15); Finite 12 (-15)].
Proof.
  apply (pcm_samples_roundtrip [Finite (-32768) (-15); Finite 12 (-15)]
           plain_context 24000 16000
           {| numberOfChannels := 1; buffer_length := 2; buffer_sampleRate := 24000;
              channels := repeat (repeat (Finite 0 0) 2) 1 |}).
  - repeat constructor; eexists; (split; [|reflexivity]); unfold is_int16; lia.
  - reflexivity.
  - reflexivity.
  - repeat constructor.
Defined.

(** ** [fileToBase64] *)

Lemma split_on_free (sep : ascii) (s : string) :
  has_char sep s = false -> split_on sep s = [s].
Proof.
  induction s as [|c r IH]; intro H; [reflexivity|].
  cbn [has_char] in H. apply orb_false_elim in H as [Hc Hr].
  cbn [split_on]. rewrite Hc, (IH Hr). reflexivity.
Qed.

Lemma split_on_append (sep : ascii) (h t : string) :
  has_char sep h = false ->
  split_on sep (h ++ String sep t) = h :: split_on sep t.
Proof.
  induction h as [|c r IH]; intro H.
  - cbn [append split_on]. now rewrite Ascii.eqb_refl.
  - cbn [has_char] in H. apply orb_false_elim in H as [Hc Hr].
    cbn [append split_on]. rewrite Hc, (IH Hr). reflexivity.
Qed.

Lemma split_on_segments_free (sep : ascii) (s : string) :
  Forall (fun seg => has_char sep seg = false) (split_on sep s).
Proof.
  induction s as [|c r IH]; cbn [split_on].
  - repeat constructor.
  - destruct (Ascii.eqb c sep) eqn:Ec.
    + constructor; [reflexivity | exact IH].
    + destruct (split_on sep r) as [|seg segs].
      * repeat constructor. cbn [has_char]. now rewrite Ec.
      * inversion IH as [|? ? Hseg Hsegs]; subst.
        constructor; [|exact Hsegs]. cbn [has_char]. now rewrite Ec, Hseg.
Qed.

Lemma fileToBase64_data_url {File : Type} (readAsDataURL : File -> read_outcome)
  (file : File) (header payload : string) :
  has_char ","%char header = false ->
  has_char ","%char payload = false ->
  readAsDataURL file = ReadLoaded (Some (header ++ "," ++ payload)%string) ->
  fileToBase64 readAsDataURL file = Resolved (Some payload).
Proof.
  intros Hh Hp E. unfold fileToBase64. rewrite E.
  change ("," ++ payload)%string with (String ","%char payload).
  rewrite split_on_append, split_on_free by assumption. reflexivity.
Qed.

(** X10: when the reader's result is a header without a comma, a comma
    and a payload without a comma (a data URL), the promise resolves with
    the payload; when more follows after a second comma, it is cut off:
    the value is the text between the first two commas. *)
Theorem fileToBase64_payload {File : Type} (readAsDataURL : File -> read_outcome)
  (file : File) (header payload : string) :
  has_char ","%char header = false ->
  has_char ","%char payload = false ->
  (readAsDataURL file = ReadLoaded (Some (header ++ "," ++ payload)%string) ->
   fileToBase64 readAsDataURL file = Resolved (Some payload))
  /\ (forall rest,
        readAsDataURL file
          = ReadLoaded (Some (header ++ "," ++ payload ++ "," ++ rest)%string) ->
        fileToBase64 readAsDataURL file = Resolved (Some payload)).
Proof.
  intros Hh Hp. split.
  - now apply fileToBase64_data_url.
  - intros rest E. unfold fileToBase64. rewrite E.
    change ("," ++ payload ++ "," ++ rest)%string
      with (String ","%char (payload ++ String ","%char rest)).
    rewrite !split_on_append by assumption. reflexivity.
Qed.

Lemma fileToBase64_payload_witness :
  fileToBase64 (fun _ : unit => ReadLoaded (Some "data:image/png;base64,QUJD")) tt
  = Resolved (Some "QUJD").
Proof.
  destruct (fileToBase64_payload
              (fun _ : unit => ReadLoaded (Some "data:image/png;base64,QUJD")) tt
              "data:image/png;base64" "QUJD" eq_refl eq_refl) as [H _].
  exact (H eq_refl).
Defined.

(** X11: the value [fileToBase64] resolves with never contains a comma;
    it is [undefined] when the reader's result has no comma; a result
    that is not a string rejects with the fixed message, and a reader
    error rejects with that error. *)
Theorem fileToBase64_edges {File : Type} (readAsDataURL : File -> read_outcome)
  (file : File) :
  (forall base64,
     fileToBase64 readAsDataURL file = Resolved (Some base64) ->
     has_char ","%char base64 = false)
  /\ (forall result,
        readAsDataURL file = ReadLoaded (Some result) ->
        has_char ","%char result = false ->
        fileToBase64 readAsDataURL file = Resolved None)
  /\ (readAsDataURL file = ReadLoaded None ->
      fileToBase64 readAsDataURL file = Rejected not_a_string)
  /\ (forall error,
        readAsDataURL file = ReadFailed error ->
        fileToBase64 readAsDataURL file = Rejected error).
Proof.
  unfold fileToBase64. split; [|split; [|split]].
  - intros base64 H. destruct (readAsDataURL file) as [[result|]|error];
      try discriminate.
    assert (H' : nth_error (split_on ","%char result) 1 = Some base64)
      by congruence.
    apply nth_error_In in H'.
    pose proof (split_on_segments_free ","%char result) as Hfree.
    rewrite Forall_forall in Hfree. now apply Hfree.
  - intros result E Hfree. rewrite E, split_on_free by assumption. reflexivity.
  - intro E. now rewrite E.
  - intros error E. now rewrite E.
Qed.

Lemma fileToBase64_edges_witness :
  has_char ","%char "QUJD" = false
  /\ fileToBase64 (fun _ : unit => ReadLoaded (Some "no comma here")) tt
     = Resolved None.
Proof.
  destruct (fileToBase64_edges
              (fun _ : unit => ReadLoaded (Some "data:image/png;base64,QUJD")) tt)
    as (Hfree & _).
  destruct (fileToBase64_edges
              (fun _ : unit => ReadLoaded (Some "no comma here")) tt)
    as (_ & Hnone & _).
  split; [exact (Hfree "QUJD" eq_refl) | exact (Hnone "no comma here" eq_refl eq_refl)].
Defined.

Lemma sextet_comma_table :
  forallb (fun k => sextet_no_comma (Z.of_nat k)) (seq 0 64) = true.
Proof. vm_compute. reflexivity. Qed.

Lemma sextet_char_not_comma (n : Z) :
  0 <= n < 64 -> Ascii.eqb (Base64.sextet_char n) ","%char = false.
Proof.
  intro H. pose proof sextet_comma_table as T. rewrite forallb_forall in T.
  specialize (T (Z.to_nat n)). rewrite Z2Nat.id in T by lia.
  unfold sextet_no_comma in T. apply negb_true_iff, T, in_seq. lia.
Qed.

Lemma encode_octets_no_comma (l : list Z) :
  Forall is_uint8 l ->
  Forall (fun c => Ascii.eqb c ","%char = false) (Base64.encode_octets l).
Proof.
  induction l as [| a | a b | a b c r IH] using list_ind3; intro H; octet_bounds;
    cbn [Base64.encode_octets]; repeat constructor;
    try (apply sextet_char_not_comma; sextet_side).
  apply IH; assumption.
Qed.

Lemma has_char_of_list (c : ascii) (l : list ascii) :
  Forall (fun x => Ascii.eqb x c = false) l ->
  has_char c (string_of_list_ascii l) = false.
Proof.
  induction 1 as [|x l Hx _ IH]; [reflexivity|].
  cbn [string_of_list_ascii has_char]. now rewrite Hx, IH.
Qed.

Lemma encode_no_comma (bytes : list Z) : has_char ","%char (encode bytes) = false.
Proof.
  rewrite encode_unfold. unfold Base64.btoa.
  apply has_char_of_list, encode_octets_no_comma.
  apply Forall_forall. intros x Hx. apply in_map_iff in Hx as (c & <- & _).
  apply char_code_range.
Qed.

(** X12: from a data URL whose payload is the base64 text of some bytes,
    [fileToBase64] followed by [decode] gives those bytes. *)
Theorem fileToBase64_then_decode {File : Type} (readAsDataURL : File -> read_outcome)
  (file : File) (header : string) (bytes : list Z) :
  has_char ","%char header = false ->
  Forall is_uint8 bytes ->
  readAsDataURL file = ReadLoaded (Some (header ++ "," ++ encode bytes)%string) ->
  exists base64,
    fileToBase64 readAsDataURL file = Resolved (Some base64)
    /\ decode base64 = Some bytes.
Proof.
  intros Hh Hb E. exists (encode bytes). split.
  - apply (fileToBase64_data_url readAsDataURL file header (encode bytes));
      [assumption | apply encode_no_comma | assumption].
  - rewrite decode_encode_bytes. f_equal. now apply uint8_through_char.
Qed.

Lemma fileToBase64_then_decode_witness :
  exists base64,
    fileToBase64
      (fun _ : unit =>
         ReadLoaded (Some ("data:audio/wav;base64" ++ "," ++ encode [82; 73; 70; 70])%string))
      tt
    = Resolved (Some base64)
    /\ decode base64 = Some [82; 73; 70; 70].
Proof.
  apply (fileToBase64_then_decode
           (fun _ : unit =>
              ReadLoaded (Some ("data:audio/wav;base64" ++ "," ++ encode [82; 73; 70; 70])%string))
           tt "data:audio/wav;base64" [82; 73; 70; 70]).
  - reflexivity.
  - repeat constructor; unfold is_uint8; lia.
  - reflexivity.
Defined.

(** ** [createPcmBlob]: the size of the payload *)

(** X13: the base64 text of the blob has four characters for every
    three of the [2 * length] bytes of the samples. *)
Theorem createPcmBlob_data_length (data : list number) (sampleRate : Z) :
  String.length (blob_data (createPcmBlob data sampleRate))
  = (4 * ((2 * List.length data + 2) / 3))%nat.
Proof.
  rewrite createPcmBlob_data, encode_unfold. unfold Base64.btoa.
  rewrite string_of_list_ascii_length, encode_octets_length_exact.
  rewrite length_map, list_ascii_of_string_of_list_ascii, length_map.
  now rewrite Uint8Array_of_int16_buffer_length, length_map.
Qed.

(** ** [handleApiError]: the message and the log *)

Lemma append_not_empty (s t : string) : s <> "" -> (s ++ t)%string <> "".
Proof. destruct s; [contradiction | discriminate]. Qed.

Lemma base_message_not_empty (error : ApiError) : base_message error <> "".
Proof.
  unfold base_message, unexpected_error. cbv zeta.
  destruct (truthy (error_message error)) as [m|] eqn:Em.
  - now apply truthy_Some in Em.
  - destruct (error_response error) as [response|]; [|discriminate].
    destruct (status response) as [st|]; [|discriminate].
    destruct (st =? 0); [discriminate|].
    destruct (truthy (chain (response_data response) data_message));
      cbn [append]; discriminate.
Qed.

(** X14: the message [handleApiError] returns is never empty; the error
    is logged first, on every path; and the key-selection dialog is
    called at most once. *)
Theorem handleApiError_message_and_log (host : Host) (error : ApiError) :
  snd (handleApiError host error) <> ""
  /\ (exists rest,
        fst (handleApiError host error)
        = ConsoleError "Gemini API error:" :: rest)
  /\ (dialog_calls (fst (handleApiError host error)) <= 1)%nat.
Proof.
  unfold handleApiError. cbv zeta.
  pose proof (base_message_not_empty error) as Hne.
  destruct (includes (base_message error) not_found_text).
  - destruct (chain (chain (window host) aistudio) openSelectKey) as [[u|r]|];
      cbn [fst snd app]; (split; [now apply append_not_empty|]);
      (split; [eexists; reflexivity | cbn; lia]).
  - cbn [fst snd]. split; [assumption|].
    split; [eexists; reflexivity | cbn; lia].
Qed.

(** ** [checkAndSelectVeoApiKey]: host calls and success *)

(** X15: the dialog is opened exactly when [hasSelectedApiKey] resolves
    to [false] and the host has [openSelectKey], and then once;
    [hasSelectedApiKey] is called once when the host has it and never
    otherwise. *)
Theorem checkAndSelectVeoApiKey_host_calls (host : Host) :
  let api := chain (window host) aistudio in
  let trace := fst (checkAndSelectVeoApiKey host) in
  dialog_calls trace
  = match chain api hasSelectedApiKey, chain api openSelectKey with
    | Some (Resolved false), Some _ => 1%nat
    | _, _ => 0%nat
    end
  /\ List.length (filter is_event_has_key trace)
     = match chain api hasSelectedApiKey with
       | Some _ => 1%nat
       | None => 0%nat
       end.
Proof.
  cbv zeta. unfold checkAndSelectVeoApiKey.
  destruct (chain (chain (window host) aistudio) hasSelectedApiKey)
    as [[[|]|r]|];
    destruct (chain (chain (window host) aistudio) openSelectKey)
      as [[u|r']|];
    split; reflexivity.
Qed.

(** X16: the check resolves to [true] exactly when the host API is
    unavailable, or a key is selected, or no key is selected and the
    dialog's promise resolves; in particular a host that has
    [hasSelectedApiKey] but not [openSelectKey] makes it reject when no
    key is selected. *)
Theorem checkAndSelectVeoApiKey_success (host : Host) :
  let api := chain (window host) aistudio in
  (snd (checkAndSelectVeoApiKey host) = Resolved true
   <-> chain api hasSelectedApiKey = None
       \/ chain api hasSelectedApiKey = Some (Resolved true)
       \/ (chain api hasSelectedApiKey = Some (Resolved false)
           /\ exists u, chain api openSelectKey = Some (Resolved u)))
  /\ (chain api hasSelectedApiKey = Some (Resolved false) ->
      chain api openSelectKey = None ->
      snd (checkAndSelectVeoApiKey host) = Rejected not_a_function).
Proof.
  cbv zeta. unfold checkAndSelectVeoApiKey.
  destruct (chain (chain (window host) aistudio) hasSelectedApiKey)
    as [[[|]|r]|];
    destruct (chain (chain (window host) aistudio) openSelectKey)
      as [[u|r']|];
    cbn [negb snd]; (split; [split|]); intros;
    repeat match goal with
           | H : _ \/ _ |- _ => destruct H
           | H : _ /\ _ |- _ => destruct H
           | H : exists _, _ |- _ => destruct H
           end;
    try discriminate; try reflexivity; eauto 6.
Qed.

Lemma checkAndSelectVeoApiKey_success_witness :
  snd (checkAndSelectVeoApiKey
         {| window := Some {| aistudio :=
                                Some {| hasSelectedApiKey := Some (Resolved false);
                                        openSelectKey := None |} |};
            API_KEY := None |})
  = Rejected not_a_function.
Proof.
  destruct (checkAndSelectVeoApiKey_success
              {| window := Some {| aistudio :=
                                     Some {| hasSelectedApiKey := Some (Resolved false);
                                             openSelectKey := None |} |};
                 API_KEY := None |}) as [_ H].
  exact (H eq_refl eq_refl).
Defined.

(** ** [extractGroundingChunks]: what the result holds *)

Lemma extractGroundingChunks_unfold (response : GenerateContentResponse) :
  extractGroundingChunks response
  = match first_candidate_chunks response with
    | Some chunks => spec_extractGroundingChunks chunks
    | None => []
    end.
Proof.
  unfold extractGroundingChunks.
  destruct (first_candidate_chunks response) as [chunks|]; [|reflexivity].
  now rewrite extract_loop_spec.
Qed.

Lemma spec_chunk_complete (c : SourceChunk) (g : GroundingChunk) :
  spec_chunk c = Some g ->
  nonempty (chunk_uri g) = true /\ nonempty (chunk_title g) = true.
Proof.
  unfold spec_chunk, web_complete, maps_complete.
  destruct (web c) as [w|] eqn:Ew.
  - destruct (nonempty (web_uri w) && nonempty (web_title w)) eqn:E.
    + cbn [option_map]. intro H. injection H as <-.
      now apply andb_prop in E.
    + destruct (maps c) as [m|]; [|discriminate].
      destruct (nonempty (maps_uri m) && nonempty (maps_title m)) eqn:E';
        [|discriminate].
      cbn [option_map]. intro H. injection H as <-.
      apply andb_prop in E' as [Hu Ht]. cbn [chunk_uri chunk_title uri title].
      destruct (maps_uri m), (maps_title m); try discriminate. now split.
  - destruct (maps c) as [m|]; [|discriminate].
    destruct (nonempty (maps_uri m) && nonempty (maps_title m)) eqn:E';
      [|discriminate].
    cbn [option_map]. intro H. injection H as <-.
    apply andb_prop in E' as [Hu Ht]. cbn [chunk_uri chunk_title uri title].
    destruct (maps_uri m), (maps_title m); try discriminate. now split.
Qed.

(** X17: every chunk [extractGroundingChunks] returns, from whatever
    response, has a non-empty uri and a non-empty title. *)
Theorem extractGroundingChunks_complete (response : GenerateContentResponse)
  (g : GroundingChunk) :
  In g (extractGroundingChunks response) ->
  nonempty (chunk_uri g) = true /\ nonempty (chunk_title g) = true.
Proof.
  rewrite extractGroundingChunks_unfold.
  destruct (first_candidate_chunks response) as [chunks|]; [|contradiction].
  unfold spec_extractGroundingChunks. intro H.
  apply in_flat_map in H as (c & _ & Hc).
  destruct (spec_chunk c) as [g'|] eqn:E; [|contradiction].
  destruct Hc as [<-|[]]. now apply (spec_chunk_complete c).
Qed.

Lemma extractGroundingChunks_complete_witness :
  In (WebChunk {| web_uri := Some "https://b.example"; web_title := Some "B" |})
     (extractGroundingChunks (response_of sample_chunks))
  /\ nonempty (Some "https://b.example") = true /\ nonempty (Some "B") = true.
Proof.
  assert (H : In (WebChunk {| web_uri := Some "https://b.example";
                              web_title := Some "B" |})
                 (extractGroundingChunks (response_of sample_chunks)))
    by (left; reflexivity).
  split; [exact H|].
  exact (extractGroundingChunks_complete (response_of sample_chunks) _ H).
Defined.

(** X18: the result is never longer than the chunk list, and extraction
    goes chunk by chunk: a chunk list made of two parts gives the result
    for the first part followed by the result for the second. *)
Theorem extractGroundingChunks_append (r r1 r2 : GenerateContentResponse)
  (chunks1 chunks2 : list SourceChunk) :
  first_candidate_chunks r1 = Some chunks1 ->
  first_candidate_chunks r2 = Some chunks2 ->
  first_candidate_chunks r = Some (chunks1 ++ chunks2) ->
  extractGroundingChunks r = extractGroundingChunks r1 ++ extractGroundingChunks r2
  /\ (List.length (extractGroundingChunks r)
      <= List.length (chunks1 ++ chunks2))%nat.
Proof.
  intros H1 H2 H. rewrite !extractGroundingChunks_unfold, H1, H2, H.
  unfold spec_extractGroundingChunks. split; [apply flat_map_app|].
  generalize (chunks1 ++ chunks2). intro l.
  induction l as [|c l IH]; [cbn; lia|].
  cbn [flat_map]. rewrite length_app. cbn [List.length].
  destruct (spec_chunk c); cbn [List.length]; lia.
Qed.

Lemma extractGroundingChunks_append_witness :
  extractGroundingChunks (response_of (sample_chunks ++ sample_chunks))
  = extractGroundingChunks (response_of sample_chunks)
      ++ extractGroundingChunks (response_of sample_chunks)
  /\ (List.length (extractGroundingChunks (response_of (sample_chunks ++ sample_chunks)))
      <= List.length (sample_chunks ++ sample_chunks))%nat.
Proof.
  exact (extractGroundingChunks_append
           (response_of (sample_chunks ++ sample_chunks))
           (response_of sample_chunks) (response_of sample_chunks)
           sample_chunks sample_chunks eq_refl eq_refl eq_refl).
Defined.

(** ** [getGeminiClient] and [generateContent]: the key and the SDK call *)

Lemma truthy_None (o : option string) :
  truthy o = None <-> o = None \/ o = Some "".
Proof.
  unfold truthy. destruct o as [s|].
  - destruct (String.eqb_spec s "") as [->|Hne].
    + split; auto.
    + split; [discriminate|].
      intros [H|H]; [discriminate|]. injection H as ->. contradiction.
  - split; auto.
Qed.

(** X19: [getGeminiClient] returns a client, carrying the configured key
    and logging nothing, exactly when [API_KEY] is a non-empty string;
    with no key or an empty one it logs and throws. *)
Theorem getGeminiClient_key (host : Host) :
  (forall key,
     getGeminiClient host = ([], inr {| apiKey := key |})
     <-> API_KEY host = Some key /\ key <> "")
  /\ (API_KEY host = None \/ API_KEY host = Some "" <->
      getGeminiClient host
      = ([ConsoleError "API_KEY is not defined."],
         inl "Gemini API key is not configured.")).
Proof.
  unfold getGeminiClient. split.
  - intro key. rewrite <- truthy_Some.
    destruct (truthy (API_KEY host)) as [k|]; split; intro H;
      try discriminate; congruence.
  - rewrite <- truthy_None.
    destruct (truthy (API_KEY host)) as [k|]; split; intro H;
      try discriminate; reflexivity.
Qed.

Lemma getGeminiClient_key_witness :
  getGeminiClient unhosted = ([], inr {| apiKey := "key" |})
  /\ getGeminiClient {| window := None; API_KEY := Some "" |}
     = ([ConsoleError "API_KEY is not defined."],
        inl "Gemini API key is not configured.").
Proof.
  destruct (getGeminiClient_key unhosted) as [Hok _].
  destruct (getGeminiClient_key {| window := None; API_KEY := Some "" |})
    as [_ Hmissing].
  split.
  - apply Hok. split; [reflexivity | discriminate].
  - apply Hmissing. right. reflexivity.
Defined.

(** X20: without a key [generateContent] rejects with the configuration
    error, whatever the inputs and whatever the SDK would have answered:
    no request is made. *)
Theorem generateContent_without_key_rejects {Response : Type}
  (sdk_generateContent : GenerateContentParameters -> promise Response)
  (host : Host) (model_name prompt : string) (options : option ContentOptions) :
  API_KEY host = None \/ API_KEY host = Some "" ->
  generateContent sdk_generateContent host model_name prompt options
  = ([ConsoleError "API_KEY is not defined."],
     Rejected "Gemini API key is not configured.").
Proof.
  intro H. apply truthy_None in H.
  unfold generateContent, generateContent_request, getGeminiClient.
  now rewrite H.
Qed.

Lemma generateContent_without_key_rejects_witness :
  generateContent (fun _ => Resolved 0%nat)
    {| window := None; API_KEY := Some "" |} "gemini-2.5-flash" "hi" None
  = ([ConsoleError "API_KEY is not defined."],
     Rejected "Gemini API key is not configured.").
Proof.
  apply (generateContent_without_key_rejects (fun _ => Resolved 0%nat)
           {| window := None; API_KEY := Some "" |} "gemini-2.5-flash" "hi" None).
  right. reflexivity.
Defined.

(** X21: with a key, [generateContent] settles as the SDK's call on the
    assembled request does, a rejection included, and the request names
    the model it was given. *)
Theorem generateContent_settles_as_sdk {Response : Type}
  (sdk_generateContent : GenerateContentParameters -> promise Response)
  (host : Host) (key model_name prompt : string) (options : option ContentOptions) :
  truthy (API_KEY host) = Some key ->
  exists log request,
    generateContent_request host model_name prompt options = (log, inr request)
    /\ model request = model_name
    /\ generateContent sdk_generateContent host model_name prompt options
       = (log, sdk_generateContent request)
    /\ forall reason,
         sdk_generateContent request = Rejected reason ->
         snd (generateContent sdk_generateContent host model_name prompt options)
         = Rejected reason.
Proof.
  intro H. unfold generateContent.
  rewrite (generateContent_request_built host key) by assumption.
  do 2 eexists. split; [reflexivity|]. split; [reflexivity|].
  split; [reflexivity|]. intros reason E. cbn [snd]. exact E.
Qed.

Lemma generateContent_settles_as_sdk_witness :
  exists log request,
    generateContent_request unhosted "gemini-2.5-flash" "hi" None = (log, inr request)
    /\ model request = "gemini-2.5-flash"
    /\ generateContent (fun _ => @Rejected nat "503") unhosted "gemini-2.5-flash" "hi" None
       = (log, Rejected "503").
Proof.
  destruct (generateContent_settles_as_sdk (fun _ => @Rejected nat "503") unhosted
              "key" "gemini-2.5-flash" "hi" None eq_refl)
    as (log & request & Hreq & Hmodel & Hsdk & _).
  exists log, request. split; [exact Hreq|]. split; [exact Hmodel | exact Hsdk].
Defined.

(** X22: with a key, [generateContent] logs one warning when a tool asks
    for Google Maps grounding and no geolocation was given, and logs
    nothing in every other case. *)
Theorem generateContent_log (host : Host) (key model_name prompt : string)
  (options : option ContentOptions) :
  truthy (API_KEY host) = Some key ->
  fst (generateContent_request host model_name prompt options)
  = if maps_requested options
    then match chain options geolocation with
         | Some _ => []
         | None => [ConsoleWarn warn_no_geolocation]
         end
    else [].
Proof.
  intro H. rewrite (generateContent_request_built host key) by assumption.
  cbn [fst]. unfold assemble_config, maps_requested. cbv zeta.
  destruct (chain options tools) as [ts|]; [|reflexivity].
  destruct (requests_maps ts); [|reflexivity].
  now destruct (chain options geolocation).
Qed.

Lemma generateContent_log_witness :
  fst (generateContent_request unhosted "gemini-2.5-flash" "cafes nearby"
         (Some (with_tools [search_tool; maps_tool] None)))
  = [ConsoleWarn warn_no_geolocation].
Proof.
  exact (generateContent_log unhosted "key" "gemini-2.5-flash" "cafes nearby"
           (Some (with_tools [search_tool; maps_tool] None)) eq_refl).
Defined.
